(** * ideademo / trake: competition-announcement spider and Telegram bot

    A shallow embedding of [src/python/trake/test_spider.py]
    (class [AdCompetitionSpider]) and [src/python/trake/newbot.py]
    (classes [TelegramBot], [CompetitionBot] and the scheduler loop of
    [main]), followed by the properties of the listing fetcher, the content
    extractor, the field matcher, the dedup store and the scheduler.

    Conventions of the embedding.
    - A Python [str] is a list of Unicode code points ([list N]); the
      literals of the source are written as UTF-8 literals and decoded by
      [u].
    - A Python [dict] with string keys is a [gmap string PyVal].
    - Every library the program calls (requests, BeautifulSoup, PIL,
      PaddleOCR, sqlite3's failure modes, the Telegram client, the clock and
      the Unicode tables behind [\d] and [\s]) is a field of the record
      [Env]; the program's own control flow is translated statement by
      statement.
    - A Python call either returns or raises: [Result]. Stateful code runs
      in the monad [M], whose state carries the [competitions] table, the
      subscriber set and the log of performed effects.
    - During one pass the world answers a request by its URL alone; from
      one pass of the scheduler to the next the world may change.
    - [print] is not modelled; [logging.error] is an event of the log. *)

From Stdlib Require Import ZArith NArith Ascii String List Sorted Decimal DecimalZ DecimalPos.
From stdpp Require Import base option list gmap strings.

Local Open Scope N_scope.

(** ** Python strings *)

Definition str := list N.

(** UTF-8 decoding of a source literal into code points. *)
Fixpoint utf8_decode (bs : list N) : str :=
  match bs with
  | [] => []
  | b0 :: r0 =>
      if b0 <? 128 then b0 :: utf8_decode r0
      else if b0 <? 224 then
        match r0 with
        | b1 :: r1 => ((b0 - 192) * 64 + (b1 - 128)) :: utf8_decode r1
        | _ => []
        end
      else if b0 <? 240 then
        match r0 with
        | b1 :: b2 :: r2 =>
            ((b0 - 224) * 4096 + (b1 - 128) * 64 + (b2 - 128)) :: utf8_decode r2
        | _ => []
        end
      else
        match r0 with
        | b1 :: b2 :: b3 :: r3 =>
            ((b0 - 240) * 262144 + (b1 - 128) * 4096 + (b2 - 128) * 64 + (b3 - 128))
              :: utf8_decode r3
        | _ => []
        end
  end.

Definition u (s : string) : str :=
  utf8_decode (map N_of_ascii (list_ascii_of_string s)).

(** The single code point of a one-character literal. *)
Definition ch (s : string) : N := hd 0 (u s).

Definition NL : N := 10.

(** [s.startswith(p)] *)
Fixpoint startswith (s p : str) : bool :=
  match p, s with
  | [], _ => true
  | _ :: _, [] => false
  | a :: p', b :: s' => (a =? b) && startswith s' p'
  end.

(** [sub in s] *)
Fixpoint contains (sub s : str) : bool :=
  if startswith s sub then true
  else match s with
       | [] => false
       | _ :: s' => contains sub s'
       end.

(** [s.lstrip(c)] for a one-character argument *)
Fixpoint lstrip (c : N) (s : str) : str :=
  match s with
  | a :: s' => if a =? c then lstrip c s' else s
  | [] => []
  end.

(** [sep.join(l)] *)
Fixpoint join (sep : str) (l : list str) : str :=
  match l with
  | [] => []
  | [x] => x
  | x :: l' => x ++ sep ++ join sep l'
  end.

(** [str(n)] for an [int]: the decimal numeral. *)
Fixpoint uint_codes (d : Decimal.uint) : str :=
  match d with
  | Nil => []
  | D0 d => 48 :: uint_codes d
  | D1 d => 49 :: uint_codes d
  | D2 d => 50 :: uint_codes d
  | D3 d => 51 :: uint_codes d
  | D4 d => 52 :: uint_codes d
  | D5 d => 53 :: uint_codes d
  | D6 d => 54 :: uint_codes d
  | D7 d => 55 :: uint_codes d
  | D8 d => 56 :: uint_codes d
  | D9 d => 57 :: uint_codes d
  end.

Definition str_of_int (z : Z) : str :=
  match Z.to_int z with
  | Decimal.Pos d => uint_codes d
  | Decimal.Neg d => 45 :: uint_codes d
  end.

(** Reading a numeral back: the value denoted by a string of ASCII digits
    ([None] when some character is not a digit or the string is empty).
    This is the specification [str_of_int] is compared with. *)
Fixpoint digits_value (acc : Z) (s : str) : option Z :=
  match s with
  | [] => Some acc
  | c :: s' =>
      if (48 <=? c) && (c <=? 57)
      then digits_value (10 * acc + Z.of_N (c - 48))%Z s'
      else None
  end.

Definition decimal_value (s : str) : option Z :=
  match s with
  | [] => None
  | _ => digits_value 0%Z s
  end.

(** ** Regular expressions ([re.search])

    The patterns of the source use literals, the classes [\d] and [\s],
    bracket sets (possibly negated), greedy quantifiers applied to a single
    character item ([*], [+], [?], [{m}], [{m,n}]), concatenation and
    capture groups that are not nested. The engine below is the
    backtracking matcher for exactly this fragment. *)

(** [\d] and [\s] on [str] patterns follow the Unicode database, which is
    not part of the repository: the two tables are parameters. *)
Record Unicode := {
  uni_digit : N -> bool;
  uni_space : N -> bool
}.

Inductive set_item :=
  | IChar (c : N)
  | IDigit
  | ISpace.

Inductive atom :=
  | AChar (c : N)
  | ADigit
  | ASpace
  | ASet (negated : bool) (items : list set_item).

Inductive regex :=
  | REmpty
  | RAtom (a : atom)
  | RRep (a : atom) (lo : nat) (hi : option nat)
  | RGroup (r : regex)
  | RSeq (r1 r2 : regex).

Definition item_match (U : Unicode) (i : set_item) (c : N) : bool :=
  match i with
  | IChar d => c =? d
  | IDigit => uni_digit U c
  | ISpace => uni_space U c
  end.

Definition atom_match (U : Unicode) (a : atom) (c : N) : bool :=
  match a with
  | AChar d => c =? d
  | ADigit => uni_digit U c
  | ASpace => uni_space U c
  | ASet neg items => xorb neg (existsb (fun i => item_match U i c) items)
  end.

Definition can_take (hi : option nat) : bool :=
  match hi with
  | Some O => false
  | _ => true
  end.

(** Greedy repetition: take as many characters as allowed, then give
    characters back one at a time while the rest of the pattern fails. *)
Fixpoint rep_match {A} (ok : N -> bool) (lo : nat) (hi : option nat)
    (s : str) (k : str -> option A) : option A :=
  let stop := match lo with O => k s | S _ => None end in
  match s with
  | c :: s' =>
      if ok c && can_take hi then
        match rep_match ok (pred lo) (pred <$> hi) s' k with
        | Some x => Some x
        | None => stop
        end
      else stop
  | [] => stop
  end.

(** Matching at the start of [s], in continuation-passing style; [caps]
    are the groups closed so far. *)
Fixpoint rmatch {A} (U : Unicode) (r : regex) (s : str) (caps : list str)
    (k : str -> list str -> option A) : option A :=
  match r with
  | REmpty => k s caps
  | RAtom a =>
      match s with
      | c :: s' => if atom_match U a c then k s' caps else None
      | [] => None
      end
  | RRep a lo hi => rep_match (atom_match U a) lo hi s (fun s' => k s' caps)
  | RGroup r1 =>
      rmatch U r1 s caps
        (fun s' caps' => k s' (caps' ++ [take (length s - length s') s]))
  | RSeq r1 r2 =>
      rmatch U r1 s caps (fun s1 caps1 => rmatch U r2 s1 caps1 k)
  end.

(** [re.search(pattern, text)]: the leftmost match; the result is
    [match.groups()], [None] when there is no match. *)
Fixpoint re_search (U : Unicode) (r : regex) (s : str) : option (list str) :=
  match rmatch U r s [] (fun _ caps => Some caps) with
  | Some g => Some g
  | None =>
      match s with
      | [] => None
      | _ :: s' => re_search U r s'
      end
  end.

(** Pattern syntax helpers. *)
Definition cat (rs : list regex) : regex := foldr RSeq REmpty rs.
Definition lit (s : str) : regex := cat (map (fun c => RAtom (AChar c)) s).
Definition star (a : atom) : regex := RRep a 0 None.
Definition plus (a : atom) : regex := RRep a 1 None.
Definition opt (a : atom) : regex := RRep a 0 (Some 1%nat).
Definition times (a : atom) (m n : nat) : regex := RRep a m (Some n).
Definition oneof (cs : list N) : atom := ASet false (map IChar cs).
Definition noneof (cs : list N) : atom := ASet true (map IChar cs).

(** ** Values, dictionaries, exceptions *)

Inductive PyVal :=
  | VInt (z : Z)
  | VStr (s : str)
  | VBool (b : bool).

#[global] Instance PyVal_eq_dec : EqDecision PyVal.
Proof. solve_decision. Defined.

Abbreviation Dict := (gmap string PyVal).

(** Truth value of an object in a condition. *)
Definition truthy (v : PyVal) : bool :=
  match v with
  | VInt z => negb (z =? 0)%Z
  | VStr s => negb (bool_decide (s = []))
  | VBool b => b
  end.

Definition nonempty (s : str) : bool := negb (bool_decide (s = [])).

Definition dict_truthy (d : Dict) : bool := negb (bool_decide (d = ∅)).

(** [str(v)], also used by f-string interpolation. *)
Definition py_str (v : PyVal) : str :=
  match v with
  | VInt z => str_of_int z
  | VStr s => s
  | VBool true => u "True"
  | VBool false => u "False"
  end.

(** The exceptions that occur; all of them are subclasses of [Exception]. *)
Inductive Exn :=
  | IntegrityError
  | KeyError
  | IndexError
  | TypeError
  | OtherError (name : string).

Inductive Result (A : Type) :=
  | Ret (a : A)
  | Raise (e : Exn).
Arguments Ret {A} a.
Arguments Raise {A} e.

(** ** The outside world *)

(** One [<img>] tag: [img.get('src', '')]. *)
Record ImgTag := { img_src : option str }.

(** The first [<a>] of a list item: [link.find('h3')] and [link.find('em')]
    with their [get_text(strip=True)], and [link.get('href', '')]. *)
Record ATag := {
  a_h3 : option str;
  a_em : option str;
  a_href : option str
}.

(** One [<li>] of the news list: [item.find('a')]. *)
Record LiTag := { li_a : option ATag }.

(** One entry of a PaddleOCR line; [wi_text] is [word_info[1][0]]. *)
Record WordInfo := { wi_text : str }.

(** The value of [self.ocr.ocr(...)]: [None], or a list of lines, where a
    line is a list of entries or [None]. *)
Definition OcrResult := option (list (option (list WordInfo))).

(** A response of [requests.get], seen through the parsers the program
    applies to it. *)
Record Response := {
  status_code : Z;
  (** [soup.find('ul', class_='list_news')] followed by [find_all('li')] *)
  soup_list_news : option (list LiTag);
  (** [soup.find_all('img')] *)
  soup_imgs : list ImgTag;
  (** [Image.open(BytesIO(content))] followed by [self.ocr.ocr(...)] *)
  image_ocr : Result OcrResult
}.

(** A row of the table [competitions]; [r_id] is the primary key. *)
Record Row := {
  r_id : str;
  r_title : PyVal;
  r_url : PyVal;
  r_date_info : PyVal;
  r_requirements : PyVal;
  r_organizer : PyVal;
  r_undertaker : PyVal;
  r_platform : str;
  r_created_at : Z
}.

Record Env := {
  unicode : Unicode;
  (** [requests.get(url, headers=...)]: a response, or an exception *)
  requests_get : str -> Result Response;
  (** [datetime.now()] *)
  datetime_now : Z;
  (** [execute] or [commit] fails on this insert for a reason other than
      the primary key (database locked, disk error, ...) *)
  sqlite_fault : Row -> bool;
  (** [application.bot.send_message(chat_id, text)] *)
  bot_send_message : Z -> str -> Result unit
}.

(** ** Effects *)

Inductive Event :=
  | EvGet (url : str)
  | EvPush (competition : Dict)
  | EvSend (chat_id : Z) (text : str)
  | EvLogError
  | EvSleep (seconds : Z).

Record State := {
  db : gmap str Row;
  chat_ids : gset Z;
  log : list Event
}.

Definition M (A : Type) : Type := State -> Result A * State.

Definition ret {A} (a : A) : M A := fun st => (Ret a, st).

Definition raise {A} (e : Exn) : M A := fun st => (Raise e, st).

Definition bind {A B} (m : M A) (k : A -> M B) : M B :=
  fun st =>
    match m st with
    | (Ret a, st') => k a st'
    | (Raise e, st') => (Raise e, st')
    end.

Notation "'let*' x ':=' m 'in' k" := (bind m (fun x => k))
  (at level 10, x name, m at level 100, k at level 200).

Definition lift {A} (r : Result A) : M A := fun st => (r, st).

(** [try: body  except <caught>: handler]; what the body did before it
    raised stays done. *)
Definition try_except {A} (body : M A) (handler : Exn -> M A) : M A :=
  fun st =>
    match body st with
    | (Ret a, st') => (Ret a, st')
    | (Raise e, st') => handler e st'
    end.

(** The state after the effects [evs] have been logged. *)
Definition add_log (st : State) (evs : list Event) : State :=
  {| db := db st; chat_ids := chat_ids st; log := log st ++ evs |}.

Definition emit (e : Event) : M unit :=
  fun st => (Ret tt, add_log st [e]).

(** [d[k]] *)
Definition getitem (d : Dict) (k : string) : Result PyVal :=
  match d !! k with
  | Some v => Ret v
  | None => Raise KeyError
  end.

(** [d.get(k, default)] *)
Definition dict_get (d : Dict) (k : string) (dflt : PyVal) : PyVal :=
  default dflt (d !! k).

(** [requests.get(url, headers=self.headers)] *)
Definition http_get (env : Env) (url : str) : M Response :=
  let* _ := emit (EvGet url) in
  lift (requests_get env url).

(** ** test_spider.py: class AdCompetitionSpider *)

Definition base_url : str := Eval vm_compute in u "https://www.sun-ada.net".

(** The nested loops over the OCR result:
    [for line in result: for word_info in line: text_list.append(...)].
    Iterating over a line that is [None] raises [TypeError]. *)
Fixpoint ocr_lines (lines : list (option (list WordInfo))) (text_list : list str)
    : Result (list str) :=
  match lines with
  | [] => Ret text_list
  | None :: _ => Raise TypeError
  | Some line :: rest => ocr_lines rest (text_list ++ map wi_text line)
  end.

(** [if result: ...]: [None] and the empty list are skipped. *)
Definition ocr_text_list (result : OcrResult) : Result (list str) :=
  match result with
  | Some (l :: ls) => ocr_lines (l :: ls) []
  | _ => Ret []
  end.

(** The body of the [try] of [get_text_from_image]. *)
Definition get_text_from_image_body (env : Env) (image_url : str) : M str :=
  let* response := http_get env image_url in
  if negb (status_code response =? 200)%Z then ret []
  else
    let* result := lift (image_ocr response) in
    let* text_list := lift (ocr_text_list result) in
    ret (join [NL] text_list).

Definition get_text_from_image (env : Env) (image_url : str) : M str :=
  try_except (get_text_from_image_body env image_url) (fun _ => ret []).

(** The image URL handed to [get_text_from_image]. *)
Definition image_url_of (img_url : str) : str :=
  if negb (startswith img_url (u "http"))
  then base_url ++ u "/" ++ lstrip (ch "/") img_url
  else img_url.

(** [for img in img_tags: ...], with the accumulator [content_text]. *)
Fixpoint img_loop (env : Env) (img_tags : list ImgTag) (content_text : str) : M str :=
  match img_tags with
  | [] => ret content_text
  | img :: rest =>
      let img_url := default [] (img_src img) in
      if nonempty img_url then
        let* img_text := get_text_from_image env (image_url_of img_url) in
        if nonempty img_text
        then img_loop env rest (content_text ++ NL :: img_text)
        else img_loop env rest content_text
      else img_loop env rest content_text
  end.

(** Pattern pieces. *)
Definition colon : regex := RAtom (oneof [ch "："; ch ":"]).
Definition date_chars : atom :=
  ASet false [IDigit; IChar (ch "年"); IChar (ch "月"); IChar (ch "日"); ISpace;
              IChar (ch "至")].
Definition field_chars : atom := noneof [ch "。"; NL].
(** [\d{4}年\d{1,2}月\d{1,2}日] *)
Definition date_cn : regex :=
  cat [times ADigit 4 4; lit (u "年"); times ADigit 1 2; lit (u "月");
       times ADigit 1 2; lit (u "日")].
(** [\d{4}\.\d{1,2}\.\d{1,2}] *)
Definition date_dot : regex :=
  cat [times ADigit 4 4; lit (u "."); times ADigit 1 2; lit (u ".");
       times ADigit 1 2].
Definition to_chars : regex := RAtom (oneof [ch "至"; ch "到"]).
Definition from_to_chars : regex := RAtom (oneof [ch "起"; ch "至"; ch "到"]).
Definition end_chars : atom := oneof [ch "结"; ch "束"].

(** [keyword[：:]\s*([^。\n]+)] *)
Definition field_pattern (keyword : string) : regex :=
  cat [lit (u keyword); colon; star ASpace; RGroup (plus field_chars)].

Definition date_patterns : list regex := Eval vm_compute in [
  (* 报名日期[：:]\s*([\d年月日\s至]+) *)
  cat [lit (u "报名日期"); colon; star ASpace; RGroup (plus date_chars)];
  (* 报名时间[：:]\s*([\d年月日\s至]+) *)
  cat [lit (u "报名时间"); colon; star ASpace; RGroup (plus date_chars)];
  (* (\d{4}年\d{1,2}月\d{1,2}日)[至到]\s*(\d{4}年\d{1,2}月\d{1,2}日) *)
  cat [RGroup date_cn; to_chars; star ASpace; RGroup date_cn];
  (* (\d{4}\.\d{1,2}\.\d{1,2})[至到]\s*(\d{4}\.\d{1,2}\.\d{1,2}) *)
  cat [RGroup date_dot; to_chars; star ASpace; RGroup date_dot];
  (* (\d{4}年\d{1,2}月\d{1,2}日)\s*[起至到]\s*(\d{4}年\d{1,2}月\d{1,2}日)\s*[结束]? *)
  cat [RGroup date_cn; star ASpace; from_to_chars; star ASpace; RGroup date_cn;
       star ASpace; opt end_chars];
  (* (\d{4}\.\d{1,2}\.\d{1,2})\s*[起至到]\s*(\d{4}\.\d{1,2}\.\d{1,2})\s*[结束]? *)
  cat [RGroup date_dot; star ASpace; from_to_chars; star ASpace; RGroup date_dot;
       star ASpace; opt end_chars]
].

Definition requirements_patterns : list regex := Eval vm_compute in
  [field_pattern "参赛对象"; field_pattern "参赛资格"; field_pattern "参赛人员";
   field_pattern "参赛范围"].

Definition organizer_patterns : list regex := Eval vm_compute in
  [field_pattern "主办"; field_pattern "主办单位"; field_pattern "主办方"].

Definition undertaker_patterns : list regex := Eval vm_compute in
  [field_pattern "承办"; field_pattern "承办单位"; field_pattern "承办方"].

Definition zhi : str := Eval vm_compute in u "至".

(** The value of [date_info] after its loop: the first pattern that matches
    decides, through [break]. One group gives [match.group(1)], two groups
    give [f"{match.group(1)}至{match.group(2)}"]. *)
Definition date_value (groups : list str) : option str :=
  match groups with
  | [g1] => Some g1
  | [g1; g2] => Some (g1 ++ zhi ++ g2)
  | _ => None
  end.

Fixpoint match_date (U : Unicode) (patterns : list regex) (content_text : str)
    : option str :=
  match patterns with
  | [] => None
  | pattern :: rest =>
      match re_search U pattern content_text with
      | Some groups => date_value groups
      | None => match_date U rest content_text
      end
  end.

(** [match.group(1)]; it raises [IndexError] when the pattern has no
    group. *)
Definition group1 (groups : list str) : Result (option str) :=
  match groups with
  | g1 :: _ => Ret (Some g1)
  | [] => Raise IndexError
  end.

(** The loops of [requirements], [organizer] and [undertaker]. *)
Fixpoint match_group1 (U : Unicode) (patterns : list regex) (content_text : str)
    : Result (option str) :=
  match patterns with
  | [] => Ret None
  | pattern :: rest =>
      match re_search U pattern content_text with
      | Some groups => group1 groups
      | None => match_group1 U rest content_text
      end
  end.

(** [x if x else sentinel] *)
Definition or_sentinel (x : option str) (sentinel : str) : str :=
  match x with
  | Some s => if nonempty s then s else sentinel
  | None => sentinel
  end.

Definition no_date_info : str := Eval vm_compute in u "未找到报名日期".
Definition no_requirements : str := Eval vm_compute in u "未找到参赛要求".
Definition no_organizer : str := Eval vm_compute in u "未找到主办方".
Definition no_undertaker : str := Eval vm_compute in u "未找到承办方".

(** The dictionary returned by [parse_news_content]. *)
Definition content_dict (content_text date_info requirements organizer undertaker : str)
    : Dict :=
  <["content" := VStr content_text]>
  (<["date_info" := VStr date_info]>
  (<["requirements" := VStr requirements]>
  (<["organizer" := VStr organizer]>
  (<["undertaker" := VStr undertaker]> ∅)))).

(** The second half of [parse_news_content]: the four pattern loops and the
    dictionary that is returned, as a function of [content_text]. *)
Definition extract_fields (U : Unicode) (content_text : str) : Result (option Dict) :=
  let date_info := match_date U date_patterns content_text in
  match match_group1 U requirements_patterns content_text with
  | Raise e => Raise e
  | Ret requirements =>
      match match_group1 U organizer_patterns content_text with
      | Raise e => Raise e
      | Ret organizer =>
          match match_group1 U undertaker_patterns content_text with
          | Raise e => Raise e
          | Ret undertaker =>
              Ret (Some (content_dict content_text
                           (or_sentinel date_info no_date_info)
                           (or_sentinel requirements no_requirements)
                           (or_sentinel organizer no_organizer)
                           (or_sentinel undertaker no_undertaker)))
          end
      end
  end.

(** The body of the [try] of [parse_news_content]. *)
Definition parse_news_content_body (env : Env) (url : str) : M (option Dict) :=
  let* response := http_get env url in
  let* content_text := img_loop env (soup_imgs response) [] in
  lift (extract_fields (unicode env) content_text).

Definition parse_news_content (env : Env) (url : str) : M (option Dict) :=
  try_except (parse_news_content_body env url) (fun _ => ret None).

Definition competition_keywords : list str :=
  Eval vm_compute in
    [u "大广赛"; u "征集"; u "参赛"; u "比赛"; u "竞赛"; u "作品"].

Definition listing_url : str :=
  Eval vm_compute in base_url ++ u "/home/newss.html".

Definition url_of_href (href : str) : str :=
  if startswith href (u "http") then href
  else if startswith href (u "/") then base_url ++ href
  else base_url ++ u "/" ++ href.

(** [any(keyword in title for keyword in competition_keywords)] *)
Definition is_competition_title (title : str) : bool :=
  existsb (fun keyword => contains keyword title) competition_keywords.

(** The record of an entry without extracted content. *)
Definition bare_info (index : Z) (title date url : str) (is_competition : bool) : Dict :=
  <["index" := VInt index]>
  (<["title" := VStr title]>
  (<["date" := VStr date]>
  (<["url" := VStr url]>
  (<["is_competition" := VBool is_competition]> ∅)))).

(** The record of a relevant entry with its extracted content. *)
Definition full_info (index : Z) (title date url : str)
    (content date_info requirements organizer undertaker : PyVal) : Dict :=
  <["content" := content]>
  (<["date_info" := date_info]>
  (<["requirements" := requirements]>
  (<["organizer" := organizer]>
  (<["undertaker" := undertaker]>
     (bare_info index title date url true))))).

(** The body of [for index, item in enumerate(news_items, 1)]: [None] stands
    for [continue], [Some news_info] for the record that is appended. *)
Definition fetch_item (env : Env) (index : Z) (item : LiTag) : M (option Dict) :=
  match li_a item with
  | None => ret None
  | Some link =>
      match a_h3 link with
      | None => ret None
      | Some title =>
          let date := default [] (a_em link) in
          let href := default [] (a_href link) in
          let url := url_of_href href in
          if is_competition_title title then
            let* content_info := parse_news_content env url in
            match content_info with
            | Some ci =>
                if dict_truthy ci then
                  let* content := lift (getitem ci "content") in
                  let* date_info := lift (getitem ci "date_info") in
                  let* requirements := lift (getitem ci "requirements") in
                  let* organizer := lift (getitem ci "organizer") in
                  let* undertaker := lift (getitem ci "undertaker") in
                  ret (Some (full_info index title date url
                               content date_info requirements organizer undertaker))
                else ret (Some (bare_info index title date url true))
            | None => ret (Some (bare_info index title date url true))
            end
          else ret (Some (bare_info index title date url false))
      end
  end.

Fixpoint fetch_loop (env : Env) (index : Z) (news_items : list LiTag)
    (news_urls : list Dict) : M (list Dict) :=
  match news_items with
  | [] => ret news_urls
  | item :: rest =>
      let* news_info := fetch_item env index item in
      fetch_loop env (index + 1) rest
        (match news_info with
         | Some d => news_urls ++ [d]
         | None => news_urls
         end)
  end.

(** The body of the [try] of [fetch_news_urls]. *)
Definition fetch_news_urls_body (env : Env) : M (list Dict) :=
  let* response := http_get env listing_url in
  match soup_list_news response with
  | None => ret []
  | Some news_items => fetch_loop env 1 news_items []
  end.

Definition fetch_news_urls (env : Env) : M (list Dict) :=
  try_except (fetch_news_urls_body env) (fun _ => ret []).

(** ** newbot.py: class TelegramBot *)

(** [for chat_id in self.chat_ids: try: await send_message(...) except
    Exception: logging.error(...)]. The set is traversed in the order of
    [elements]; the order of a Python set is unspecified, and nothing below
    depends on it. A call is modelled on its own, with no command handled
    while a delivery is awaited. (In the source the loop runs over the live
    set: a command that changes the set during a delivery makes the next
    step of the loop raise [RuntimeError], outside the [try].) *)
Fixpoint send_loop (env : Env) (chats : list Z) (message : str) : M unit :=
  match chats with
  | [] => ret tt
  | chat_id :: rest =>
      let* _ :=
        try_except
          (let* _ := emit (EvSend chat_id message) in
           lift (bot_send_message env chat_id message))
          (fun _ => emit EvLogError) in
      send_loop env rest message
  end.

Definition send_message (env : Env) (message : str) : M unit :=
  fun st => send_loop env (elements (chat_ids st)) message st.

(** ** newbot.py: class CompetitionBot *)

Definition platform : str := Eval vm_compute in u "大广赛".

(** [c.execute('INSERT INTO competitions ...')] and [conn.commit()]: the
    column [id] is the primary key, so a row whose id is already present is
    refused with [IntegrityError]. The values of the row are taken to be
    values that sqlite3 can bind, as those of the spider's entries are
    ([row_binds] below says which). *)
Definition sql_insert (env : Env) (row : Row) : M unit :=
  fun st =>
    if sqlite_fault env row then (Raise (OtherError "sqlite3.OperationalError"), st)
    else
      match db st !! r_id row with
      | Some _ => (Raise IntegrityError, st)
      | None =>
          (Ret tt, {| db := <[r_id row := row]> (db st);
                      chat_ids := chat_ids st;
                      log := log st |})
      end.

(** The tuple of values bound to the [INSERT]. *)
Definition row_of (env : Env) (competition : Dict) : Result Row :=
  match getitem competition "index" with
  | Raise e => Raise e
  | Ret index =>
      match getitem competition "title" with
      | Raise e => Raise e
      | Ret title =>
          match getitem competition "url" with
          | Raise e => Raise e
          | Ret url =>
              Ret {| r_id := py_str index;
                     r_title := title;
                     r_url := url;
                     r_date_info := dict_get competition "date_info" (VStr []);
                     r_requirements := dict_get competition "requirements" (VStr []);
                     r_organizer := dict_get competition "organizer" (VStr []);
                     r_undertaker := dict_get competition "undertaker" (VStr []);
                     r_platform := platform;
                     r_created_at := datetime_now env |}
          end
      end
  end.

(** [try: INSERT; commit; return True  except sqlite3.IntegrityError:
    return False  finally: conn.close()]. Any other exception leaves the
    function. *)
Definition save_competition (env : Env) (competition : Dict) : M bool :=
  try_except
    (let* row := lift (row_of env competition) in
     let* _ := sql_insert env row in
     ret true)
    (fun e =>
       match e with
       | IntegrityError => ret false
       | _ => raise e
       end).

Definition not_found : PyVal := VStr (u "未找到").

(** The f-string of [push_message]. *)
Definition message_of (title date_info requirements organizer undertaker url : PyVal)
    : str :=
  [NL] ++ u "<b>发现新比赛！</b>" ++
  [NL] ++ u "<b>标题：</b>" ++ py_str title ++
  [NL] ++ u "<b>平台：</b>大广赛" ++
  [NL] ++ u "<b>报名日期：</b>" ++ py_str date_info ++
  [NL] ++ u "<b>参赛要求：</b>" ++ py_str requirements ++
  [NL] ++ u "<b>主办方：</b>" ++ py_str organizer ++
  [NL] ++ u "<b>承办方：</b>" ++ py_str undertaker ++
  [NL] ++ u "<b>详情链接：</b>" ++ py_str url ++
  [NL] ++ u "        ".

Definition push_message (env : Env) (competition : Dict) : M unit :=
  let* _ := emit (EvPush competition) in
  let* title := lift (getitem competition "title") in
  let* url := lift (getitem competition "url") in
  send_message env
    (message_of title
       (dict_get competition "date_info" not_found)
       (dict_get competition "requirements" not_found)
       (dict_get competition "organizer" not_found)
       (dict_get competition "undertaker" not_found)
       url).

(** [[news for news in news_urls if news['is_competition']]] *)
Fixpoint competition_news_of (news_urls : list Dict) : Result (list Dict) :=
  match news_urls with
  | [] => Ret []
  | news :: rest =>
      match getitem news "is_competition" with
      | Raise e => Raise e
      | Ret v =>
          match competition_news_of rest with
          | Raise e => Raise e
          | Ret l => Ret (if truthy v then news :: l else l)
          end
      end
  end.

(** ['content' in competition] *)
Definition has_key (d : Dict) (k : string) : bool :=
  bool_decide (is_Some (d !! k)).

(** The body of [for competition in competition_news]. *)
Definition run_one (env : Env) (competition : Dict) : M unit :=
  if has_key competition "content" then
    let* saved := save_competition env competition in
    if saved then push_message env competition else ret tt
  else ret tt.

Fixpoint run_loop (env : Env) (competition_news : list Dict) : M unit :=
  match competition_news with
  | [] => ret tt
  | competition :: rest =>
      let* _ := run_one env competition in
      run_loop env rest
  end.

Definition run_task (env : Env) : M unit :=
  let* news_urls := fetch_news_urls env in
  let* competition_news := lift (competition_news_of news_urls) in
  run_loop env competition_news.

(** ** newbot.py: the scheduler loop of [main]

    [while True: await bot.run_task(); await asyncio.sleep(12 * 3600)].
    [scheduled_task envs tick n] runs the next [n] iterations of the loop,
    iteration [i] in the world [envs i]: it returns when all [n] iterations
    have completed (the loop is then about to start iteration [tick + n]),
    and it raises when an iteration raises, which ends the loop. *)
Definition sleep (seconds : Z) : M unit := emit (EvSleep seconds).

Fixpoint scheduled_task (envs : nat -> Env) (tick : nat) (n : nat) : M unit :=
  match n with
  | O => ret tt
  | S n' =>
      let* _ := run_task (envs tick) in
      let* _ := sleep (12 * 3600) in
      scheduled_task envs (S tick) n'
  end.

(** ** What the functions compute, read off the world

    The world answers a request by its URL alone, so the value of each
    effectful function above is a function of [env]; the definitions below
    give these values and the effects that accompany them. The theorems
    relate them to the monadic code. *)

(** The text [get_text_from_image] returns for a URL. *)
Definition image_text (env : Env) (image_url : str) : str :=
  match requests_get env image_url with
  | Raise _ => []
  | Ret response =>
      if negb (status_code response =? 200)%Z then []
      else
        match image_ocr response with
        | Raise _ => []
        | Ret result =>
            match ocr_text_list result with
            | Raise _ => []
            | Ret text_list => join [NL] text_list
            end
        end
  end.

(** What one [<img>] tag adds to [content_text], and the request it
    causes. *)
Definition img_part (env : Env) (img : ImgTag) : str :=
  let img_url := default [] (img_src img) in
  if nonempty img_url then
    let img_text := image_text env (image_url_of img_url) in
    if nonempty img_text then NL :: img_text else []
  else [].

Definition img_events (img : ImgTag) : list Event :=
  let img_url := default [] (img_src img) in
  if nonempty img_url then [EvGet (image_url_of img_url)] else [].

Definition raw_text (env : Env) (img_tags : list ImgTag) : str :=
  concat (map (img_part env) img_tags).

(** The plain concatenation of the recognised texts of the images that
    have a source, in page order: [raw_text] as the specification words
    it. *)
Definition recognised_texts (env : Env) (img_tags : list ImgTag) : list str :=
  map (fun img_url => image_text env (image_url_of img_url))
    (List.filter nonempty (map (fun img => default [] (img_src img)) img_tags)).

Definition raw_text_as_specified (env : Env) (img_tags : list ImgTag) : str :=
  concat (recognised_texts env img_tags).

(** The value of [parse_news_content] and its requests. *)
Definition page_info (env : Env) (url : str) : option Dict :=
  match requests_get env url with
  | Raise _ => None
  | Ret response =>
      match extract_fields (unicode env) (raw_text env (soup_imgs response)) with
      | Ret d => d
      | Raise _ => None
      end
  end.

Definition page_events (env : Env) (url : str) : list Event :=
  EvGet url ::
  match requests_get env url with
  | Raise _ => []
  | Ret response => concat (map img_events (soup_imgs response))
  end.

(** The title of a list item that has both a link and a title. *)
Definition item_title (item : LiTag) : option str :=
  match li_a item with
  | Some link => a_h3 link
  | None => None
  end.

Definition item_url (item : LiTag) : str :=
  match li_a item with
  | Some link => url_of_href (default [] (a_href link))
  | None => []
  end.

Definition item_date (item : LiTag) : str :=
  match li_a item with
  | Some link => default [] (a_em link)
  | None => []
  end.

(** The record [fetch_item] produces for an item, and its requests. *)
Definition entry_of (env : Env) (index : Z) (item : LiTag) : option Dict :=
  match item_title item with
  | None => None
  | Some title =>
      let date := item_date item in
      let url := item_url item in
      if is_competition_title title then
        match page_info env url with
        | Some ci =>
            Some (full_info index title date url
                    (default (VStr []) (ci !! "content"))
                    (default (VStr []) (ci !! "date_info"))
                    (default (VStr []) (ci !! "requirements"))
                    (default (VStr []) (ci !! "organizer"))
                    (default (VStr []) (ci !! "undertaker")))
        | None => Some (bare_info index title date url true)
        end
      else Some (bare_info index title date url false)
  end.

Definition item_events (env : Env) (item : LiTag) : list Event :=
  match item_title item with
  | None => []
  | Some title =>
      if is_competition_title title then page_events env (item_url item) else []
  end.

Fixpoint entries_of (env : Env) (index : Z) (news_items : list LiTag) : list Dict :=
  match news_items with
  | [] => []
  | item :: rest =>
      match entry_of env index item with
      | Some d => d :: entries_of env (index + 1) rest
      | None => entries_of env (index + 1) rest
      end
  end.


(** The value of [fetch_news_urls]. *)
Definition listing_entries (env : Env) : list Dict :=
  match requests_get env listing_url with
  | Raise _ => []
  | Ret response =>
      match soup_list_news response with
      | None => []
      | Some news_items => entries_of env 1 news_items
      end
  end.

Definition listing_events (env : Env) : list Event :=
  EvGet listing_url ::
  match requests_get env listing_url with
  | Raise _ => []
  | Ret response =>
      match soup_list_news response with
      | None => []
      | Some news_items => concat (map (item_events env) news_items)
      end
  end.

(** The four field categories of the extractor. *)
Inductive Family :=
  | DateInfo
  | Requirements
  | Organizer
  | Undertaker.

#[global] Instance Family_eq_dec : EqDecision Family.
Proof. solve_decision. Defined.

Definition family_patterns (f : Family) : list regex :=
  match f with
  | DateInfo => date_patterns
  | Requirements => requirements_patterns
  | Organizer => organizer_patterns
  | Undertaker => undertaker_patterns
  end.

Definition family_key (f : Family) : string :=
  match f with
  | DateInfo => "date_info"
  | Requirements => "requirements"
  | Organizer => "organizer"
  | Undertaker => "undertaker"
  end.

Definition family_sentinel (f : Family) : str :=
  match f with
  | DateInfo => no_date_info
  | Requirements => no_requirements
  | Organizer => no_organizer
  | Undertaker => no_undertaker
  end.

(** The captured value of a match, by category. *)
Definition family_value (f : Family) (groups : list str) : option str :=
  match f with
  | DateInfo => date_value groups
  | _ => head groups
  end.

(** The value a category's loop leaves in its variable. *)
Definition family_match (U : Unicode) (f : Family) (content_text : str) : option str :=
  match f with
  | DateInfo => match_date U date_patterns content_text
  | _ =>
      match match_group1 U (family_patterns f) content_text with
      | Ret x => x
      | Raise _ => None
      end
  end.

(** Which events of a log are calls of [push_message] for the entry with a
    given index, and how many waits a log holds. *)
Definition pushed (index : Z) (evs : list Event) : Prop :=
  exists c, EvPush c ∈ evs /\ c !! "index" = Some (VInt index).

Definition is_get (e : Event) : bool :=
  match e with
  | EvGet _ => true
  | _ => false
  end.

Definition is_sleep (e : Event) : bool :=
  match e with
  | EvSleep _ => true
  | _ => false
  end.

Definition is_push (e : Event) : bool :=
  match e with
  | EvPush _ => true
  | _ => false
  end.

(** Shortest match of a pattern and of each of its groups. *)
Fixpoint min_len (r : regex) : nat :=
  match r with
  | REmpty => 0
  | RAtom _ => 1
  | RRep _ lo _ => lo
  | RGroup r1 => min_len r1
  | RSeq r1 r2 => min_len r1 + min_len r2
  end%nat.

Fixpoint groups_min (r : regex) : list nat :=
  match r with
  | RGroup r1 => groups_min r1 ++ [min_len r1]
  | RSeq r1 r2 => groups_min r1 ++ groups_min r2
  | _ => []
  end.

(** A pattern that does not match a text. *)
Definition no_match (U : Unicode) (text : str) (q : regex) : Prop :=
  re_search U q text = None.

(** The groups of the source's patterns: one group that cannot be empty, or
    two groups. *)
Definition one_group (p : regex) : Prop := exists m, groups_min p = [S m].

Definition date_groups (p : regex) : Prop :=
  one_group p \/ exists m n, groups_min p = [m; n].

(** An entry that a pass neither stores nor announces: it is not flagged as
    a competition, or it has no content. *)
Definition skipped (d : Dict) : Prop :=
  d !! "is_competition" = Some (VBool false) \/ d !! "content" = None.

(** No storage fault in a world. *)
Definition fault_free (env : Env) : Prop :=
  forall row, sqlite_fault env row = false.

(** A field value that is the category's sentinel or the value captured by
    a pattern of the category on the text. *)
Definition matched_or_sentinel (U : Unicode) (text : str) (f : Family) (v : str) : Prop :=
  v = family_sentinel f \/
  exists p groups,
    p ∈ family_patterns f /\ re_search U p text = Some groups /\
    family_value f groups = Some v.

(** ** More of the matcher *)

(** The characters a pattern can consume, and its groups in the order in
    which they close. *)
Fixpoint alphabet (U : Unicode) (r : regex) (c : N) : bool :=
  match r with
  | REmpty => false
  | RAtom a => atom_match U a c
  | RRep a _ _ => atom_match U a c
  | RGroup r1 => alphabet U r1 c
  | RSeq r1 r2 => alphabet U r1 c || alphabet U r2 c
  end.

Fixpoint groups_of (r : regex) : list regex :=
  match r with
  | RGroup r1 => groups_of r1 ++ [r1]
  | RSeq r1 r2 => groups_of r1 ++ groups_of r2
  | _ => []
  end.

(** A capture of a group: made of characters of the group, and not shorter
    than its shortest match. *)
Definition capture_of (U : Unicode) (cap : str) (g : regex) : Prop :=
  Forall (fun c => alphabet U g c = true) cap /\ (min_len g <= length cap)%nat.

(** The characters a found registration window is made of. *)
Definition date_marks : list N :=
  Eval vm_compute in [ch "年"; ch "月"; ch "日"; ch "至"; ch "."].

Definition date_char (U : Unicode) (c : N) : bool :=
  uni_digit U c || uni_space U c || existsb (N.eqb c) date_marks.

(** ** Reading the table and the log *)

(** The id under which an entry is stored: [str(competition['index'])]. *)
Definition entry_id (c : Dict) : str :=
  match c !! "index" with
  | Some v => py_str v
  | None => []
  end.

(** The ids of the entries handed to [push_message], in the order of the
    calls. *)
Definition push_id (e : Event) : option str :=
  match e with
  | EvPush c => Some (entry_id c)
  | _ => None
  end.

Definition pushed_ids (evs : list Event) : list str := omap push_id evs.

(** No id has been announced twice, and every announced id is stored. *)
Definition announced_once (st : State) : Prop :=
  NoDup (pushed_ids (log st)) /\
  forall id, id ∈ pushed_ids (log st) -> is_Some (db st !! id).

(** Every row is stored under its own id and carries the platform label. *)
Definition rows_keyed (table : gmap str Row) : Prop :=
  forall id row, table !! id = Some row -> r_id row = id /\ r_platform row = platform.

(** The deliveries attempted in a log: chat and text of each
    [bot.send_message]. *)
Definition send_of (e : Event) : option (Z * str) :=
  match e with
  | EvSend chat_id text => Some (chat_id, text)
  | _ => None
  end.

Definition sends (evs : list Event) : list (Z * str) := omap send_of evs.

Definition is_log_error (e : Event) : bool :=
  match e with
  | EvLogError => true
  | _ => false
  end.

(** Whether the delivery of a text to a chat fails in a world. *)
Definition delivery_fails (env : Env) (text : str) (chat_id : Z) : bool :=
  match bot_send_message env chat_id text with
  | Ret _ => false
  | Raise _ => true
  end.

(** ** newbot.py: the commands of TelegramBot *)

(** The part of a Telegram update the handlers read:
    [update.effective_chat.id]. *)
Record Update := { effective_chat_id : Z }.

(** [await update.message.reply_text(text)]: a message sent to the chat of
    the update. *)
Definition reply_text (env : Env) (update : Update) (text : str) : M unit :=
  let* _ := emit (EvSend (effective_chat_id update) text) in
  lift (bot_send_message env (effective_chat_id update) text).

Definition set_chat_ids (st : State) (chats : gset Z) : State :=
  {| db := db st; chat_ids := chats; log := log st |}.

Definition welcome_text : str :=
  [NL] ++ u "欢迎使用比赛信息推送机器人！" ++
  [NL] ++ u "可用命令：" ++
  [NL] ++ u "/subscribe - 订阅比赛信息" ++
  [NL] ++ u "/unsubscribe - 取消订阅" ++
  [NL] ++ u "        ".

Definition start_command (env : Env) (update : Update) : M unit :=
  reply_text env update welcome_text.

(** [self.chat_ids.add(chat_id)], then the reply. *)
Definition subscribe_command (env : Env) (update : Update) : M unit :=
  fun st =>
    reply_text env update (u "订阅成功！您将收到最新的比赛信息推送。")
      (set_chat_ids st ({[ effective_chat_id update ]} ∪ chat_ids st)).

(** [self.chat_ids.discard(chat_id)], then the reply. *)
Definition unsubscribe_command (env : Env) (update : Update) : M unit :=
  fun st =>
    reply_text env update (u "已取消订阅。")
      (set_chat_ids st (chat_ids st ∖ {[ effective_chat_id update ]})).

(** ** rename.py: parse_chinese_date *)

(** [date_str.split(', ')]: the segments between the occurrences of the
    separator, found from left to right; [cur] is the segment being
    read. *)
Fixpoint split_comma_space (cur : str) (s : str) : list str :=
  match s with
  | [] => [cur]
  | a :: rest =>
      match rest with
      | b :: rest' =>
          if (a =? 44) && (b =? 32)
          then cur :: split_comma_space [] rest'
          else split_comma_space (cur ++ [a]) rest
      | [] => split_comma_space (cur ++ [a]) rest
      end
  end.

(** [date_str.split(', ')[-1]] *)
Definition last_segment (date_str : str) : str :=
  List.last (split_comma_space [] date_str) [].

(** [re.match(pattern, text)]: a match at the start of the text only. *)
Definition re_match (U : Unicode) (r : regex) (s : str) : option (list str) :=
  rmatch U r s [] (fun _ caps => Some caps).

(** [(\d{4})年(\d{1,2})月(\d{1,2})日] *)
Definition chinese_date_pattern : regex :=
  Eval vm_compute in
    cat [RGroup (times ADigit 4 4); lit (u "年");
         RGroup (times ADigit 1 2); lit (u "月");
         RGroup (times ADigit 1 2); lit (u "日")].

(** [int(s)] for a string of decimal digits; [digit_value] is the Unicode
    value of a decimal digit, a table outside the repository. *)
Definition int_of_digits (digit_value : N -> Z) (s : str) : Z :=
  fold_left (fun acc c => (10 * acc + digit_value c)%Z) s 0%Z.

Record Date := { d_year : Z; d_month : Z; d_day : Z }.

Definition is_leap (y : Z) : bool :=
  ((y mod 4 =? 0) && (negb (y mod 100 =? 0) || (y mod 400 =? 0)))%Z.

Definition days_in_month (y m : Z) : Z :=
  if (m =? 2)%Z then (if is_leap y then 29 else 28)%Z
  else if ((m =? 4) || (m =? 6) || (m =? 9) || (m =? 11))%Z then 30%Z
  else 31%Z.

(** [datetime(year, month, day)]: [ValueError] unless the three numbers
    are a date of the calendar, with the year between 1 and 9999. *)
Definition datetime (y m d : Z) : Result Date :=
  if ((1 <=? y) && (y <=? 9999) && (1 <=? m) && (m <=? 12) &&
      (1 <=? d) && (d <=? days_in_month y m))%Z
  then Ret {| d_year := y; d_month := m; d_day := d |}
  else Raise (OtherError "ValueError").

Definition parse_chinese_date (U : Unicode) (digit_value : N -> Z) (date_str : str)
    : Result (option Date) :=
  let date_str := last_segment date_str in
  match re_match U chinese_date_pattern date_str with
  | Some groups =>
      match groups with
      | g1 :: g2 :: g3 :: _ =>
          let year := int_of_digits digit_value g1 in
          let month := int_of_digits digit_value g2 in
          let day := int_of_digits digit_value g3 in
          match datetime year month day with
          | Ret date => Ret (Some date)
          | Raise e => Raise e
          end
      | _ => Raise IndexError
      end
  | None => Ret None
  end.

(** ** The iterations of the scheduler loop *)




(** ** What sqlite3 binds

    [execute] binds a [str] that can be encoded as UTF-8, that is, one
    without a surrogate code point, and an [int], hence a [bool], within
    the signed range of 64 bits. For another [int] it raises
    [OverflowError] and for a [str] with a surrogate [UnicodeEncodeError],
    before the table is consulted. *)
Definition str_binds (s : str) : bool :=
  forallb (fun c => (c <? 55296) || ((57343 <? c) && (c <? 1114112))) s.

Definition sqlite_binds (v : PyVal) : bool :=
  match v with
  | VInt z => ((- 2 ^ 63 <=? z) && (z <? 2 ^ 63))%Z
  | VStr s => str_binds s
  | VBool _ => true
  end.

Definition row_binds (row : Row) : bool :=
  str_binds (r_id row) && sqlite_binds (r_title row) && sqlite_binds (r_url row) &&
  sqlite_binds (r_date_info row) && sqlite_binds (r_requirements row) &&
  sqlite_binds (r_organizer row) && sqlite_binds (r_undertaker row) &&
  str_binds (r_platform row).

(** ** Sample worlds

    Concrete worlds on which the properties below are exercised. *)

(** [\d] and [\s] restricted to ASCII. *)
Definition ascii_tables : Unicode :=
  {| uni_digit := fun c => (48 <=? c) && (c <=? 57);
     uni_space := fun c => (c =? 32) || ((9 <=? c) && (c <=? 13)) |}.

(** An HTML response with the given status, news list and image sources. *)
Definition html_page (code : Z) (news_items : option (list LiTag)) (srcs : list str)
    : Response :=
  {| status_code := code;
     soup_list_news := news_items;
     soup_imgs := map (fun s => {| img_src := Some s |}) srcs;
     image_ocr := Raise (OtherError "PIL.UnidentifiedImageError") |}.

(** An image on which the OCR recognises the given lines. *)
Definition image_with (lines : list str) : Response :=
  {| status_code := 200;
     soup_list_news := None;
     soup_imgs := [];
     image_ocr := Ret (Some [Some (map (fun t => {| wi_text := t |}) lines)]) |}.

Definition news_item (title href : str) : LiTag :=
  {| li_a := Some {| a_h3 := Some title;
                     a_em := Some (u "2024-03-01");
                     a_href := Some href |} |}.

Definition demo_items : list LiTag :=
  [news_item (u "2024年全国大学生广告大赛征集启事") (u "/news/1.html");
   {| li_a := None |};
   news_item (u "学校放假通知") (u "news/2.html");
   news_item (u "参赛须知") (u "/news/3.html")].

(** The site of the demo: a listing of four items (the second has no
    link); the page of the first item shows three images, of which the
    second cannot be downloaded; the page of the fourth item cannot be
    fetched. *)
Definition demo_site (listing_status : Z) (url : str) : Result Response :=
  if bool_decide (url = listing_url) then
    Ret (html_page listing_status (Some demo_items) [])
  else if bool_decide (url = base_url ++ u "/news/1.html") then
    Ret (html_page 200 None [u "/img/a.png"; u "http://cdn.example/b.png"; u "img/c.png"])
  else if bool_decide (url = base_url ++ u "/img/a.png") then
    Ret (image_with [u "主办：中国广告协会"; u "报名时间：2024年3月1日至2024年6月1日"])
  else if bool_decide (url = base_url ++ u "/img/c.png") then
    Ret (image_with [u "承办单位: 某大学。"; u "参赛对象:全体学生"])
  else Raise (OtherError "requests.ConnectionError").

Definition demo_world : Env :=
  {| unicode := ascii_tables;
     requests_get := demo_site 200;
     datetime_now := 1000;
     sqlite_fault := fun _ => false;
     bot_send_message := fun _ _ => Ret tt |}.

(** The same site a day later. *)
Definition demo_world_later : Env :=
  {| unicode := ascii_tables;
     requests_get := demo_site 200;
     datetime_now := 87400;
     sqlite_fault := fun _ => false;
     bot_send_message := fun _ _ => Ret tt |}.

(** The same site, answering the listing request with status 503. *)
Definition demo_world_503 : Env :=
  {| unicode := ascii_tables;
     requests_get := demo_site 503;
     datetime_now := 1000;
     sqlite_fault := fun _ => false;
     bot_send_message := fun _ _ => Ret tt |}.


(** An empty table, one subscriber, nothing done yet. *)
Definition demo_state : State :=
  {| db := ∅; chat_ids := {[ 7%Z ]}; log := [] |}.

Definition demo_page_url : str := Eval vm_compute in base_url ++ u "/news/1.html".

(** A text in which the first and the second organizer pattern both
    match, on different lines. *)
Definition two_organizers : str :=
  Eval vm_compute in u "主办：甲" ++ [NL] ++ u "主办单位：乙".

(** A row stored before the demo starts, under the id of the first entry,
    and a state that holds it. *)
Definition demo_row : Row :=
  {| r_id := str_of_int 1;
     r_title := VStr (u "旧公告");
     r_url := VStr (u "https://www.sun-ada.net/old.html");
     r_date_info := VStr [];
     r_requirements := VStr [];
     r_organizer := VStr [];
     r_undertaker := VStr [];
     r_platform := platform;
     r_created_at := 5 |}.

Definition demo_stored : State :=
  {| db := {[ r_id demo_row := demo_row ]}; chat_ids := {[ 7%Z ]}; log := [] |}.

(** The values of the ASCII digits. *)
Definition ascii_digit_value (c : N) : Z := Z.of_N (c - 48).

(** A site of one page, whose only image cannot be downloaded. *)
Definition blank_page_url : str := Eval vm_compute in base_url ++ u "/news/9.html".

Definition blank_world : Env :=
  {| unicode := ascii_tables;
     requests_get := fun url =>
       if bool_decide (url = blank_page_url)
       then Ret (html_page 200 None [u "/img/z.png"])
       else Raise (OtherError "requests.ConnectionError");
     datetime_now := 1000;
     sqlite_fault := fun _ => false;
     bot_send_message := fun _ _ => Ret tt |}.

(** A text with a labelled registration window: the second date pattern is
    the first that matches, and the two range patterns with 至 would match
    too. *)
Definition labelled_window : str :=
  Eval vm_compute in u "报名时间：2024年3月1日至2024年6月1日".

(** A text with a bare range, written with 到 and a space: the third date
    pattern is the first that matches, the fifth would match too. *)
Definition bare_window : str :=
  Eval vm_compute in u "展期2024年3月1日到 2024年6月1日".


(** * Properties *)

(** ** The model on small inputs *)

Example utf8_year : u "2024年" = [50; 48; 50; 52; 24180].
Proof. reflexivity. Qed.

Example str_of_int_120 : str_of_int 120 = u "120".
Proof. reflexivity. Qed.

Example contains_keyword :
  contains (u "征集") (u "2024年全国大学生广告大赛征集启事") = true.
Proof. vm_compute. reflexivity. Qed.

Example url_of_relative_href :
  url_of_href (u "news/2.html") = u "https://www.sun-ada.net/news/2.html".
Proof. vm_compute. reflexivity. Qed.

Example image_url_of_rooted_src :
  image_url_of (u "//img/a.png") = u "https://www.sun-ada.net/img/a.png".
Proof. vm_compute. reflexivity. Qed.

(** A date range is found by the third pattern; its two groups are joined. *)
Example match_date_range :
  match_date ascii_tables date_patterns (u "时间：2024年3月1日至 2024年6月15日结束") =
    Some (u "2024年3月1日至2024年6月15日").
Proof. vm_compute. reflexivity. Qed.

(** The class of the first two date patterns contains [\s]: the captured
    value runs over the line break. *)
Example match_date_over_newline :
  match_date ascii_tables date_patterns
    (u "报名日期：2024年3月1日" ++ [NL] ++ u "主办：某协会") =
    Some (u "2024年3月1日" ++ [NL]).
Proof. vm_compute. reflexivity. Qed.

(** Backtracking: [\d{1,2}] gives one digit back so that 日 can match. *)
Example search_gives_back :
  re_search ascii_tables (cat [RGroup (times ADigit 1 2); lit (u "1日")]) (u "x11日") =
    Some [u "1"].
Proof. vm_compute. reflexivity. Qed.

Example organizer_stops_at_full_stop :
  match_group1 ascii_tables organizer_patterns (u "主办： 中国广告协会。承办：某校") =
    Ret (Some (u "中国广告协会")).
Proof. vm_compute. reflexivity. Qed.

Example no_organizer_found :
  or_sentinel None no_organizer = u "未找到主办方".
Proof. reflexivity. Qed.

(** ** Strings and numerals *)

Lemma digits_value_acc (d : Decimal.uint) (acc : positive) :
  digits_value (Z.pos acc) (uint_codes d) = Some (Z.pos (Pos.of_uint_acc d acc)).
Proof.
  revert acc. induction d; intros acc; simpl; try reflexivity;
    rewrite <- IHd; f_equal; lia.
Qed.

Lemma digits_value_uint (d : Decimal.uint) :
  digits_value 0%Z (uint_codes d) = Some (Z.of_N (Pos.of_uint d)).
Proof.
  induction d; simpl; try reflexivity; try assumption;
    apply digits_value_acc.
Qed.

Lemma uint_codes_nil (d : Decimal.uint) : uint_codes d = [] -> d = Nil.
Proof. destruct d; simpl; congruence. Qed.

(** [str(n)] is a numeral that reads back as [n]. *)
Lemma decimal_value_str_of_int (z : Z) :
  (0 <= z)%Z -> decimal_value (str_of_int z) = Some z.
Proof.
  intros Hz. destruct z as [|p|p]; [reflexivity| |lia].
  unfold str_of_int. simpl.
  pose proof (digits_value_uint (Pos.to_uint p)) as H.
  rewrite DecimalPos.Unsigned.of_to in H. simpl in H.
  unfold decimal_value.
  destruct (uint_codes (Pos.to_uint p)) eqn:E; [|exact H].
  apply uint_codes_nil in E.
  pose proof (DecimalPos.Unsigned.of_to p) as H1. rewrite E in H1. discriminate.
Qed.

Lemma str_of_int_inj (a b : Z) :
  (0 <= a)%Z -> (0 <= b)%Z -> str_of_int a = str_of_int b -> a = b.
Proof.
  intros Ha Hb E.
  pose proof (decimal_value_str_of_int a Ha) as H1.
  pose proof (decimal_value_str_of_int b Hb) as H2.
  rewrite E in H1. congruence.
Qed.

(** [startswith] and [contains] are the prefix and substring tests. *)
Lemma startswith_spec (p : str) : forall s : str,
  startswith s p = true <-> exists b, s = p ++ b.
Proof.
  induction p as [|a p IH]; intros s; simpl.
  - split; [intros _; exists s; reflexivity|intros _; destruct s; reflexivity].
  - destruct s as [|b s].
    + split; [discriminate|intros [x H]; discriminate].
    + simpl. rewrite andb_true_iff, N.eqb_eq, IH. split.
      * intros [-> [x ->]]. exists x. reflexivity.
      * intros [x H]. injection H as -> ->. eauto.
Qed.

Lemma contains_spec (sub : str) : forall s : str,
  contains sub s = true <-> exists a b, s = a ++ sub ++ b.
Proof.
  induction s as [|c s IH]; cbn [contains].
  - destruct (startswith [] sub) eqn:E.
    + split; [intros _|reflexivity].
      apply startswith_spec in E as [b E]. exists [], b. exact E.
    + split; [discriminate|]. intros (a & b & H).
      destruct a; [|discriminate]. simpl in H.
      assert (startswith [] sub = true) by (apply startswith_spec; eauto).
      congruence.
  - destruct (startswith (c :: s) sub) eqn:E.
    + split; [intros _|reflexivity].
      apply startswith_spec in E as [b E]. exists [], b. exact E.
    + rewrite IH. split.
      * intros (a & b & ->). exists (c :: a), b. reflexivity.
      * intros (a & b & H). destruct a as [|c' a].
        -- simpl in H.
           assert (startswith (c :: s) sub = true) by (apply startswith_spec; eauto).
           congruence.
        -- injection H as -> ->. eauto.
Qed.

(** ** The matcher *)

Lemma rep_match_inv {A} ok lo hi s (k : str -> option A) x :
  rep_match ok lo hi s k = Some x ->
  exists s', k s' = Some x /\ (length s' + lo <= length s)%nat.
Proof.
  revert lo hi. induction s as [|c s IH]; intros lo hi; simpl.
  - destruct lo; [|discriminate]. intros H. exists []. split; [exact H|simpl; lia].
  - destruct (ok c && can_take hi).
    + destruct (rep_match ok (pred lo) (pred <$> hi) s k) eqn:E.
      * intros [= ->]. apply IH in E as (s' & Hk & Hl).
        exists s'. split; [exact Hk|lia].
      * destruct lo; [|discriminate]. intros H. exists (c :: s). split; [exact H|simpl; lia].
    + destruct lo; [|discriminate]. intros H. exists (c :: s). split; [exact H|simpl; lia].
Qed.

(** A successful match hands its continuation one capture per group, each
    at least as long as the group's shortest match, and consumes at least
    the pattern's shortest match. *)
Lemma rmatch_inv {A} U r : forall s caps (k : str -> list str -> option A) x,
  rmatch U r s caps k = Some x ->
  exists s' new,
    k s' (caps ++ new) = Some x /\
    Forall2 (fun c m => (m <= length c)%nat) new (groups_min r) /\
    (length s' + min_len r <= length s)%nat.
Proof.
  induction r as [|a|a lo hi|r1 IH1|r1 IH1 r2 IH2]; intros s caps k x; simpl.
  - intros H. exists s, []. rewrite app_nil_r. repeat split; [exact H|constructor|lia].
  - destruct s as [|c s]; [discriminate|].
    destruct (atom_match U a c); [|discriminate].
    intros H. exists s, []. rewrite app_nil_r. repeat split; [exact H|constructor|simpl; lia].
  - intros H. apply rep_match_inv in H as (s' & Hk & Hl).
    exists s', []. rewrite app_nil_r. repeat split; [exact Hk|constructor|exact Hl].
  - intros H. apply IH1 in H as (s' & new & Hk & Hf & Hl).
    exists s', (new ++ [take (length s - length s') s]).
    rewrite app_assoc. repeat split; [exact Hk| |exact Hl].
    apply Forall2_app; [exact Hf|].
    constructor; [|constructor]. rewrite length_take. lia.
  - intros H. apply IH1 in H as (s1 & new1 & Hk1 & Hf1 & Hl1).
    apply IH2 in Hk1 as (s2 & new2 & Hk2 & Hf2 & Hl2).
    exists s2, (new1 ++ new2). rewrite app_assoc.
    repeat split; [exact Hk2| |lia].
    apply Forall2_app; assumption.
Qed.

Lemma re_search_groups U r s groups :
  re_search U r s = Some groups ->
  Forall2 (fun c m => (m <= length c)%nat) groups (groups_min r).
Proof.
  induction s as [|c s IH]; simpl.
  - destruct (rmatch U r [] [] _) eqn:E; [|discriminate].
    intros [= ->]. apply rmatch_inv in E as (s' & new & Hk & Hf & _).
    simpl in Hk. injection Hk as <-. exact Hf.
  - destruct (rmatch U r (c :: s) [] _) eqn:E; [|exact IH].
    intros [= ->]. apply rmatch_inv in E as (s' & new & Hk & Hf & _).
    simpl in Hk. injection Hk as <-. exact Hf.
Qed.

(** ** The field matcher *)

Section FieldMatcher.
Variable U : Unicode.
Variable text : str.

Local Abbreviation nomatch := (no_match U text).

(** Patterns that do not match are passed over. *)
Lemma match_date_skip pre rest :
  Forall nomatch pre ->
  match_date U (pre ++ rest) text = match_date U rest text.
Proof.
  induction 1 as [|q pre Hq _ IH]; simpl; [reflexivity|].
  unfold no_match in Hq. rewrite Hq. exact IH.
Qed.

Lemma match_group1_skip pre rest :
  Forall nomatch pre ->
  match_group1 U (pre ++ rest) text = match_group1 U rest text.
Proof.
  induction 1 as [|q pre Hq _ IH]; simpl; [reflexivity|].
  unfold no_match in Hq. rewrite Hq. exact IH.
Qed.

(** The first pattern that matches decides, whatever follows it. *)
Lemma match_date_first pre p post groups :
  Forall nomatch pre -> re_search U p text = Some groups ->
  match_date U (pre ++ p :: post) text = date_value groups.
Proof.
  intros Hpre Hp. rewrite match_date_skip by exact Hpre. simpl. now rewrite Hp.
Qed.

Lemma match_group1_first pre p post groups :
  Forall nomatch pre -> re_search U p text = Some groups ->
  match_group1 U (pre ++ p :: post) text = group1 groups.
Proof.
  intros Hpre Hp. rewrite match_group1_skip by exact Hpre. simpl. now rewrite Hp.
Qed.

(** Every list of patterns splits into the patterns that fail and the
    first one that matches, unless none matches. *)
Lemma first_match_split (pats : list regex) :
  Forall nomatch pats \/
  exists pre p post groups,
    pats = pre ++ p :: post /\ Forall nomatch pre /\
    re_search U p text = Some groups.
Proof.
  induction pats as [|q pats IH]; [left; constructor|].
  destruct (re_search U q text) as [groups|] eqn:E.
  - right. exists [], q, pats, groups. repeat split; [constructor|exact E].
  - destruct IH as [IH|(pre & p & post & groups & -> & Hpre & Hp)].
    + left. constructor; assumption.
    + right. exists (q :: pre), p, post, groups.
      repeat split; [constructor; assumption|exact Hp].
Qed.

Lemma match_date_none pats : Forall nomatch pats -> match_date U pats text = None.
Proof.
  intros H. rewrite <- (app_nil_r pats). rewrite match_date_skip by exact H. reflexivity.
Qed.

Lemma match_group1_none pats :
  Forall nomatch pats -> match_group1 U pats text = Ret None.
Proof.
  intros H. rewrite <- (app_nil_r pats). rewrite match_group1_skip by exact H. reflexivity.
Qed.

Lemma one_group_match p groups :
  one_group p -> re_search U p text = Some groups ->
  exists g, groups = [g] /\ g <> [].
Proof.
  intros [m Hm] H. apply re_search_groups in H. rewrite Hm in H.
  inversion H as [|g ? gs ? Hg Hrest]; subst. inversion Hrest; subst.
  exists g. split; [reflexivity|]. intros ->. simpl in Hg. lia.
Qed.

Lemma date_groups_match p groups :
  date_groups p -> re_search U p text = Some groups ->
  exists v, date_value groups = Some v /\ v <> [].
Proof.
  intros [H1|(m & n & Hmn)] H.
  - destruct (one_group_match _ _ H1 H) as (g & -> & Hg). exists g. split; [reflexivity|exact Hg].
  - apply re_search_groups in H. rewrite Hmn in H.
    inversion H as [|g1 ? gs ? _ Hrest]; subst.
    inversion Hrest as [|g2 ? gs' ? _ Hrest']; subst. inversion Hrest'; subst.
    exists (g1 ++ zhi ++ g2). split; [reflexivity|].
    intros E. apply app_eq_nil in E as [_ E]. discriminate.
Qed.

Lemma families_one_group f :
  f <> DateInfo -> Forall one_group (family_patterns f).
Proof.
  destruct f; [congruence| | |]; intros _;
    repeat (apply List.Forall_cons; [exists 0%nat; reflexivity|]);
    apply List.Forall_nil.
Qed.

Lemma date_patterns_groups : Forall date_groups date_patterns.
Proof.
  repeat (apply List.Forall_cons;
          [first [ left; exists 0%nat; reflexivity
                 | right; eexists _, _; reflexivity ]|]);
    apply List.Forall_nil.
Qed.

(** The loops over the source's own families never raise. *)
Lemma match_group1_family f :
  f <> DateInfo ->
  match_group1 U (family_patterns f) text = Ret (family_match U f text).
Proof.
  intros Hf. pose proof (families_one_group f Hf) as Hall.
  assert (Hret : exists x, match_group1 U (family_patterns f) text = Ret x).
  { destruct (first_match_split (family_patterns f)) as
      [Hn|(pre & p & post & groups & E & Hpre & Hp)].
    - eexists. apply match_group1_none. exact Hn.
    - rewrite E in Hall |- *. rewrite (match_group1_first _ _ _ _ Hpre Hp).
      apply Forall_app in Hall as [_ Hall]. apply Forall_cons in Hall as [Hone _].
      destruct (one_group_match _ _ Hone Hp) as (g & -> & _).
      eexists. reflexivity. }
  destruct Hret as [x Hx]. rewrite Hx. unfold family_match.
  destruct f; [congruence|rewrite Hx; reflexivity..].
Qed.

(** What a category's loop computes: nothing when no pattern matches,
    otherwise the value captured by the first pattern that matches, which
    is never empty. *)
Lemma family_match_spec f :
  (family_match U f text = None /\ Forall nomatch (family_patterns f)) \/
  exists pre p post groups v,
    family_patterns f = pre ++ p :: post /\ Forall nomatch pre /\
    re_search U p text = Some groups /\
    family_value f groups = Some v /\ v <> [] /\
    family_match U f text = Some v.
Proof.
  destruct (first_match_split (family_patterns f)) as
    [Hn|(pre & p & post & groups & E & Hpre & Hp)].
  - left. split; [|exact Hn].
    destruct f; cbn [family_match family_patterns] in *;
      [ apply match_date_none; exact Hn
      | rewrite (match_group1_none _ Hn); reflexivity .. ].
  - right. exists pre, p, post, groups.
    destruct (decide (f = DateInfo)) as [->|Hf].
    + pose proof date_patterns_groups as Hall.
      cbn [family_patterns] in E. rewrite E in Hall.
      apply Forall_app in Hall as [_ Hall]. apply Forall_cons in Hall as [Hd _].
      destruct (date_groups_match _ _ Hd Hp) as (v & Hv & Hne).
      exists v. repeat split; try assumption.
      cbn [family_match]. rewrite E.
      rewrite (match_date_first _ _ _ _ Hpre Hp). exact Hv.
    + pose proof (families_one_group f Hf) as Hall. rewrite E in Hall.
      apply Forall_app in Hall as [_ Hall]. apply Forall_cons in Hall as [Hone _].
      destruct (one_group_match _ _ Hone Hp) as (g & -> & Hg).
      exists g. repeat split; try assumption.
      * destruct f; [congruence|reflexivity..].
      * pose proof (match_group1_family f Hf) as Hm. rewrite E in Hm.
        rewrite (match_group1_first _ _ _ _ Hpre Hp) in Hm. simpl in Hm.
        congruence.
Qed.

(** The dictionary of [extract_fields]: it is always built, and each
    category's key holds the loop's value or the category's sentinel. *)
Lemma extract_fields_run :
  extract_fields U text =
    Ret (Some (content_dict text
                 (or_sentinel (family_match U DateInfo text) no_date_info)
                 (or_sentinel (family_match U Requirements text) no_requirements)
                 (or_sentinel (family_match U Organizer text) no_organizer)
                 (or_sentinel (family_match U Undertaker text) no_undertaker))).
Proof.
  unfold extract_fields.
  pose proof (match_group1_family Requirements ltac:(discriminate)) as H1.
  pose proof (match_group1_family Organizer ltac:(discriminate)) as H2.
  pose proof (match_group1_family Undertaker ltac:(discriminate)) as H3.
  cbn [family_patterns] in H1, H2, H3. rewrite H1, H2, H3.
  reflexivity.
Qed.

Lemma content_dict_lookup c a b d e f :
  content_dict c a b d e !! family_key f =
    Some (VStr match f with
               | DateInfo => a
               | Requirements => b
               | Organizer => d
               | Undertaker => e
               end).
Proof. destruct f; reflexivity. Qed.

Lemma content_dict_content c a b d e :
  content_dict c a b d e !! "content" = Some (VStr c).
Proof. reflexivity. Qed.

End FieldMatcher.

(** ** Running the spider *)

Lemma add_log_nil st : add_log st [] = st.
Proof. destruct st. unfold add_log. simpl. now rewrite app_nil_r. Qed.

Lemma add_log_app st a b : add_log (add_log st a) b = add_log st (a ++ b).
Proof. unfold add_log. simpl. now rewrite app_assoc. Qed.

Lemma http_get_run env url st :
  http_get env url st = (requests_get env url, add_log st [EvGet url]).
Proof. reflexivity. Qed.

(** [get_text_from_image] always returns: its value is [image_text], and
    it performs exactly one request. *)
Lemma get_text_from_image_run env image_url st :
  get_text_from_image env image_url st =
    (Ret (image_text env image_url), add_log st [EvGet image_url]).
Proof.
  unfold get_text_from_image, try_except, get_text_from_image_body, bind, image_text.
  rewrite http_get_run.
  destruct (requests_get env image_url) as [response|e]; [|reflexivity].
  destruct (negb (status_code response =? 200)%Z); [reflexivity|].
  unfold lift. destruct (image_ocr response) as [result|e]; [|reflexivity].
  destruct (ocr_text_list result); reflexivity.
Qed.

Lemma img_loop_run env img_tags : forall content_text st,
  img_loop env img_tags content_text st =
    (Ret (content_text ++ raw_text env img_tags),
     add_log st (concat (map img_events img_tags))).
Proof.
  induction img_tags as [|img rest IH]; intros content_text st.
  - simpl. unfold ret, raw_text. simpl. now rewrite app_nil_r, add_log_nil.
  - cbn [img_loop]. unfold raw_text. cbn [map concat].
    unfold img_part at 1, img_events at 1.
    destruct (nonempty (default [] (img_src img))).
    + unfold bind. rewrite get_text_from_image_run.
      destruct (nonempty (image_text env _)); rewrite IH, add_log_app.
      * unfold raw_text. now rewrite <- app_assoc.
      * reflexivity.
    + rewrite IH. reflexivity.
Qed.

Lemma parse_news_content_run env url st :
  parse_news_content env url st =
    (Ret (page_info env url), add_log st (page_events env url)).
Proof.
  unfold parse_news_content, try_except, parse_news_content_body, bind,
    page_info, page_events.
  rewrite http_get_run.
  destruct (requests_get env url) as [response|e]; [|reflexivity].
  rewrite img_loop_run, add_log_app. cbn [app]. unfold lift.
  rewrite extract_fields_run. reflexivity.
Qed.

(** A page that could be fetched always gives a dictionary. *)
Lemma page_info_fetched env url response :
  requests_get env url = Ret response ->
  page_info env url =
    Some (content_dict (raw_text env (soup_imgs response))
            (or_sentinel (family_match (unicode env) DateInfo
                            (raw_text env (soup_imgs response))) no_date_info)
            (or_sentinel (family_match (unicode env) Requirements
                            (raw_text env (soup_imgs response))) no_requirements)
            (or_sentinel (family_match (unicode env) Organizer
                            (raw_text env (soup_imgs response))) no_organizer)
            (or_sentinel (family_match (unicode env) Undertaker
                            (raw_text env (soup_imgs response))) no_undertaker)).
Proof.
  intros H. unfold page_info. rewrite H, extract_fields_run. reflexivity.
Qed.

Lemma page_info_failed env url e :
  requests_get env url = Raise e -> page_info env url = None.
Proof. intros H. unfold page_info. now rewrite H. Qed.

Lemma page_info_shape env url ci :
  page_info env url = Some ci ->
  exists c a b d e, ci = content_dict c a b d e.
Proof.
  unfold page_info. destruct (requests_get env url) as [response|]; [|discriminate].
  rewrite extract_fields_run. intros [= <-]. eauto 6.
Qed.

Lemma content_dict_truthy c a b d e : dict_truthy (content_dict c a b d e) = true.
Proof.
  unfold dict_truthy, content_dict. rewrite bool_decide_eq_false_2; [reflexivity|].
  apply insert_non_empty.
Qed.

Lemma fetch_item_run env index item st :
  fetch_item env index item st =
    (Ret (entry_of env index item), add_log st (item_events env item)).
Proof.
  unfold fetch_item, entry_of, item_events, item_title, item_url, item_date.
  destruct (li_a item) as [link|]; [|unfold ret; now rewrite add_log_nil].
  destruct (a_h3 link) as [title|]; [|unfold ret; now rewrite add_log_nil].
  destruct (is_competition_title title); [|unfold ret; now rewrite add_log_nil].
  unfold bind. rewrite parse_news_content_run.
  destruct (page_info env _) as [ci|] eqn:E; [|reflexivity].
  apply page_info_shape in E as (c & a & b & d & e & ->).
  rewrite content_dict_truthy. reflexivity.
Qed.

Lemma fetch_loop_run env news_items : forall index news_urls st,
  fetch_loop env index news_items news_urls st =
    (Ret (news_urls ++ entries_of env index news_items),
     add_log st (concat (map (item_events env) news_items))).
Proof.
  induction news_items as [|item rest IH]; intros index news_urls st.
  - simpl. unfold ret. now rewrite app_nil_r, add_log_nil.
  - cbn [fetch_loop entries_of map concat]. unfold bind.
    rewrite fetch_item_run, IH, add_log_app.
    destruct (entry_of env index item); [now rewrite <- app_assoc|reflexivity].
Qed.

(** [fetch_news_urls] always returns; its value is [listing_entries]. *)
Lemma fetch_news_urls_run env st :
  fetch_news_urls env st =
    (Ret (listing_entries env), add_log st (listing_events env)).
Proof.
  unfold fetch_news_urls, try_except, fetch_news_urls_body, bind,
    listing_entries, listing_events.
  rewrite http_get_run.
  destruct (requests_get env listing_url) as [response|e]; [|reflexivity].
  destruct (soup_list_news response) as [news_items|]; [|reflexivity].
  rewrite fetch_loop_run, add_log_app. reflexivity.
Qed.

(** ** The entries of a listing *)

Lemma entry_of_keys env j item d :
  entry_of env j item = Some d ->
  d !! "index" = Some (VInt j) /\
  (exists t, item_title item = Some t /\ d !! "title" = Some (VStr t)) /\
  d !! "url" = Some (VStr (item_url item)) /\
  (exists b, d !! "is_competition" = Some (VBool b)).
Proof.
  unfold entry_of. destruct (item_title item) as [title|]; [|discriminate].
  destruct (is_competition_title title).
  - destruct (page_info env (item_url item)); intros [= <-];
      (split; [reflexivity|split; [exists title; split; reflexivity|split; [reflexivity|]]]);
      eexists; reflexivity.
  - intros [= <-].
    split; [reflexivity|split; [exists title; split; reflexivity|split; [reflexivity|]]].
    eexists; reflexivity.
Qed.

Lemma entries_of_elem env news_items : forall index d,
  d ∈ entries_of env index news_items ->
  exists k item,
    news_items !! k = Some item /\
    entry_of env (index + Z.of_nat k) item = Some d.
Proof.
  induction news_items as [|item rest IH]; intros index d; simpl.
  - intros H. apply elem_of_nil in H. contradiction.
  - assert (Hrest : d ∈ entries_of env (index + 1) rest ->
              exists k it, (item :: rest) !! k = Some it /\
                           entry_of env (index + Z.of_nat k) it = Some d).
    { intros H. apply IH in H as (k & it & Hk & He).
      exists (S k), it. split; [exact Hk|]. rewrite <- He. f_equal. lia. }
    destruct (entry_of env index item) as [d0|] eqn:E; [|exact Hrest].
    intros H. apply elem_of_cons in H as [->|H]; [|exact (Hrest H)].
    exists 0%nat, item. split; [reflexivity|]. rewrite <- E. f_equal. simpl. lia.
Qed.

Lemma entries_of_lookup env news_items : forall index k item d,
  news_items !! k = Some item ->
  entry_of env (index + Z.of_nat k) item = Some d ->
  d ∈ entries_of env index news_items.
Proof.
  induction news_items as [|it rest IH]; intros index k item d Hk He; [discriminate|].
  simpl. destruct k as [|k].
  - injection Hk as ->. replace (index + Z.of_nat 0)%Z with index in He by (simpl; lia).
    rewrite He. apply elem_of_cons. now left.
  - simpl in Hk.
    assert (d ∈ entries_of env (index + 1) rest) as H.
    { apply (IH _ k item); [exact Hk|]. rewrite <- He. f_equal. lia. }
    destruct (entry_of env index it); [apply elem_of_cons; now right|exact H].
Qed.




Lemma listing_events_get env : Forall (fun e => is_get e = true) (listing_events env).
Proof.
  unfold listing_events. constructor; [reflexivity|].
  destruct (requests_get env listing_url) as [response|]; [|constructor].
  destruct (soup_list_news response) as [news_items|]; [|constructor].
  apply Forall_concat, Forall_forall. intros evs Hevs.
  apply list_elem_of_fmap in Hevs as (item & -> & _).
  unfold item_events. destruct (item_title item) as [title|]; [|constructor].
  destruct (is_competition_title title); [|constructor].
  unfold page_events. constructor; [reflexivity|].
  destruct (requests_get env (item_url item)) as [r|]; [|constructor].
  apply Forall_concat, Forall_forall. intros evs Hevs.
  apply list_elem_of_fmap in Hevs as (img & -> & _).
  unfold img_events. destruct (nonempty _); repeat constructor.
Qed.

(** ** Running the bot *)

(** Delivery never raises: a failed delivery is logged and the loop goes
    on. *)
Lemma send_loop_run env chats message : forall st,
  exists evs,
    send_loop env chats message st = (Ret tt, add_log st evs) /\
    Forall (fun e => is_push e = false /\ is_sleep e = false) evs.
Proof.
  induction chats as [|chat_id rest IH]; intros st.
  - exists []. simpl. unfold ret. rewrite add_log_nil. split; [reflexivity|constructor].
  - cbn [send_loop]. unfold bind, try_except, emit, lift.
    destruct (bot_send_message env chat_id message) as [[]|e].
    + destruct (IH (add_log st [EvSend chat_id message])) as (evs & -> & Hq).
      exists (EvSend chat_id message :: evs). rewrite add_log_app.
      split; [reflexivity|]. constructor; [split; reflexivity|exact Hq].
    + rewrite add_log_app.
      destruct (IH (add_log st ([EvSend chat_id message] ++ [EvLogError])))
        as (evs & -> & Hq).
      exists ([EvSend chat_id message; EvLogError] ++ evs). rewrite add_log_app.
      split; [reflexivity|].
      constructor; [split; reflexivity|]. constructor; [split; reflexivity|exact Hq].
Qed.

Lemma push_message_run env c st :
  exists r evs,
    push_message env c st = (r, add_log st (EvPush c :: evs)) /\
    Forall (fun e => is_push e = false /\ is_sleep e = false) evs /\
    (is_Some (c !! "title") -> is_Some (c !! "url") -> r = Ret tt).
Proof.
  unfold push_message, bind, emit, lift, getitem.
  destruct (c !! "title") as [title|].
  - destruct (c !! "url") as [url|].
    + unfold send_message.
      destruct (send_loop_run env (elements (chat_ids (add_log st [EvPush c])))
                  (message_of title (dict_get c "date_info" not_found)
                     (dict_get c "requirements" not_found)
                     (dict_get c "organizer" not_found)
                     (dict_get c "undertaker" not_found) url)
                  (add_log st [EvPush c])) as (evs & -> & Hq).
      exists (Ret tt), evs. rewrite add_log_app. repeat split; [exact Hq].
    + exists (Raise KeyError), []. repeat split; [constructor|].
      intros _ [? ?]; discriminate.
  - exists (Raise KeyError), []. repeat split; [constructor|].
    intros [? ?]; discriminate.
Qed.

Lemma row_of_raise env c e : row_of env c = Raise e -> e = KeyError.
Proof.
  unfold row_of, getitem.
  destruct (c !! "index"); [|congruence].
  destruct (c !! "title"); [|congruence].
  destruct (c !! "url"); congruence.
Qed.

Lemma row_of_id env c row :
  row_of env c = Ret row ->
  exists index, c !! "index" = Some index /\ r_id row = py_str index.
Proof.
  unfold row_of, getitem.
  destruct (c !! "index") as [index|]; [|discriminate].
  destruct (c !! "title"); [|discriminate].
  destruct (c !! "url"); [|discriminate].
  intros [= <-]. exists index. split; reflexivity.
Qed.

Lemma row_of_keys env c :
  is_Some (c !! "index") -> is_Some (c !! "title") -> is_Some (c !! "url") ->
  exists row, row_of env c = Ret row.
Proof.
  intros [i Hi] [t Ht] [w Hw]. unfold row_of, getitem. rewrite Hi, Ht, Hw. eauto.
Qed.

(** What [save_competition] does, case by case. *)
Lemma save_competition_run env c st :
  save_competition env c st =
    match row_of env c with
    | Raise _ => (Raise KeyError, st)
    | Ret row =>
        if sqlite_fault env row
        then (Raise (OtherError "sqlite3.OperationalError"), st)
        else
          match db st !! r_id row with
          | Some _ => (Ret false, st)
          | None =>
              (Ret true, {| db := <[r_id row := row]> (db st);
                            chat_ids := chat_ids st;
                            log := log st |})
          end
    end.
Proof.
  unfold save_competition, try_except, bind, lift, sql_insert.
  destruct (row_of env c) as [row|e] eqn:E.
  - destruct (sqlite_fault env row); [reflexivity|].
    destruct (db st !! r_id row); reflexivity.
  - apply row_of_raise in E as ->. reflexivity.
Qed.

(** One entry of a pass: what is pushed is the entry itself and it has
    content; the table changes at most at the entry's own id; with a
    fault-free store and an entry that has its keys, nothing is raised. *)
Lemma run_one_frame env c st :
  exists r db' evs,
    run_one env c st =
      (r, {| db := db'; chat_ids := chat_ids st; log := log st ++ evs |}) /\
    (forall c', EvPush c' ∈ evs -> c' = c /\ is_Some (c !! "content")) /\
    Forall (fun e => is_sleep e = false) evs /\
    (forall id,
       (is_Some (c !! "content") ->
        forall row, row_of env c = Ret row -> r_id row <> id) ->
       db' !! id = db st !! id) /\
    (fault_free env ->
     is_Some (c !! "index") -> is_Some (c !! "title") -> is_Some (c !! "url") ->
     r = Ret tt).
Proof.
  assert (Hst : {| db := db st; chat_ids := chat_ids st; log := log st ++ [] |} = st)
    by (rewrite app_nil_r; destruct st; reflexivity).
  assert (Hno : forall c', EvPush c' ∈ @nil Event -> c' = c /\ is_Some (c !! "content"))
    by (intros c' H; apply elem_of_nil in H; contradiction).
  unfold run_one, has_key.
  destruct (decide (is_Some (c !! "content"))) as [Hc|Hc].
  2: { rewrite bool_decide_eq_false_2 by exact Hc.
       exists (Ret tt), (db st), []. rewrite Hst.
       split; [reflexivity|split; [exact Hno|split; [constructor|split]]];
         intros; reflexivity. }
  rewrite bool_decide_eq_true_2 by exact Hc.
  unfold bind. rewrite save_competition_run.
  destruct (row_of env c) as [row|e] eqn:Erow.
  - destruct (sqlite_fault env row) eqn:Ef.
    + exists (Raise (OtherError "sqlite3.OperationalError")), (db st), []. rewrite Hst.
      split; [reflexivity|split; [exact Hno|split; [constructor|split]]];
        [intros; reflexivity|].
      intros Hff. rewrite Hff in Ef. discriminate.
    + destruct (db st !! r_id row) eqn:Edb.
      * exists (Ret tt), (db st), []. rewrite Hst.
        split; [reflexivity|split; [exact Hno|split; [constructor|split]]];
          intros; reflexivity.
      * destruct (push_message_run env c
                    {| db := <[r_id row:=row]> (db st); chat_ids := chat_ids st;
                       log := log st |}) as (r & evs & -> & Hq & Hret).
        exists r, (<[r_id row:=row]> (db st)), (EvPush c :: evs).
        split; [reflexivity|]. split; [|split; [|split]].
        -- intros c' H. apply elem_of_cons in H as [H|H].
           ++ injection H as ->. auto.
           ++ rewrite Forall_forall in Hq. apply Hq in H as [H _]. discriminate.
        -- constructor; [reflexivity|].
           eapply Forall_impl; [exact Hq|]. intros ? [_ ?]. assumption.
        -- intros id Hid. apply lookup_insert_ne. exact (Hid Hc row eq_refl).
        -- intros _ _ Ht Hu. exact (Hret Ht Hu).
  - exists (Raise KeyError), (db st), []. rewrite Hst.
    split; [reflexivity|split; [exact Hno|split; [constructor|split]]];
      [intros; reflexivity|].
    intros _ Hi Ht Hu. destruct (row_of_keys env c Hi Ht Hu) as [row Hrow].
    congruence.
Qed.

Lemma run_loop_frame env competition_news : forall st,
  exists r db' evs,
    run_loop env competition_news st =
      (r, {| db := db'; chat_ids := chat_ids st; log := log st ++ evs |}) /\
    (forall c', EvPush c' ∈ evs ->
       c' ∈ competition_news /\ is_Some (c' !! "content")) /\
    Forall (fun e => is_sleep e = false) evs /\
    (forall id,
       (forall c, c ∈ competition_news -> is_Some (c !! "content") ->
        forall row, row_of env c = Ret row -> r_id row <> id) ->
       db' !! id = db st !! id) /\
    (fault_free env ->
     Forall (fun c => is_Some (c !! "index") /\ is_Some (c !! "title") /\
                      is_Some (c !! "url")) competition_news ->
     r = Ret tt).
Proof.
  induction competition_news as [|c rest IH]; intros st.
  - exists (Ret tt), (db st), []. simpl. unfold ret. rewrite app_nil_r.
    split; [destruct st; reflexivity|].
    split; [intros c' H; apply elem_of_nil in H; contradiction|].
    split; [constructor|]. split; intros; reflexivity.
  - cbn [run_loop]. unfold bind.
    destruct (run_one_frame env c st) as (r1 & db1 & evs1 & E1 & Hp1 & Hs1 & Hd1 & Hr1).
    rewrite E1. destruct r1 as [[]|e].
    + destruct (IH {| db := db1; chat_ids := chat_ids st; log := log st ++ evs1 |})
        as (r2 & db2 & evs2 & E2 & Hp2 & Hs2 & Hd2 & Hr2).
      cbn [db chat_ids log] in E2, Hd2. rewrite E2.
      exists r2, db2, (evs1 ++ evs2). rewrite app_assoc.
      split; [reflexivity|]. split; [|split; [|split]].
      * intros c' H. apply elem_of_app in H as [H|H].
        -- apply Hp1 in H as [-> Hc]. split; [apply elem_of_cons; now left|exact Hc].
        -- apply Hp2 in H as [Hin Hc]. split; [apply elem_of_cons; now right|exact Hc].
      * apply Forall_app. split; assumption.
      * intros id Hid. rewrite Hd2, Hd1; [reflexivity| |].
        -- intros Hc row. apply Hid; [apply elem_of_cons; now left|exact Hc].
        -- intros c0 Hin. apply Hid. apply elem_of_cons. now right.
      * intros Hff Hall. apply Forall_cons in Hall as [_ Hall]. exact (Hr2 Hff Hall).
    + exists (Raise e), db1, evs1.
      split; [reflexivity|]. split; [|split; [|split]].
      * intros c' H. apply Hp1 in H as [-> Hc]. split; [apply elem_of_cons; now left|exact Hc].
      * exact Hs1.
      * intros id Hid. apply Hd1. intros Hc row.
        apply Hid; [apply elem_of_cons; now left|exact Hc].
      * intros Hff Hall. apply Forall_cons in Hall as [(Hi & Ht & Hu) _].
        specialize (Hr1 Hff Hi Ht Hu). discriminate.
Qed.

Lemma competition_news_of_run news_urls :
  Forall (fun d => exists b, d !! "is_competition" = Some (VBool b)) news_urls ->
  exists l,
    competition_news_of news_urls = Ret l /\
    forall c, c ∈ l <-> c ∈ news_urls /\ c !! "is_competition" = Some (VBool true).
Proof.
  induction 1 as [|d rest [b Hb] _ (l & IH & Hl)].
  - exists []. split; [reflexivity|]. intros c. split.
    + intros H. apply elem_of_nil in H. contradiction.
    + intros [H _]. exact H.
  - simpl. unfold getitem. rewrite Hb, IH. simpl.
    destruct b.
    + exists (d :: l). split; [reflexivity|]. intros c.
      rewrite !elem_of_cons, Hl. split.
      * intros [->|[H1 H2]]; auto.
      * intros [[->|H1] H2]; auto.
    + exists l. split; [reflexivity|]. intros c.
      rewrite elem_of_cons, Hl. split.
      * intros [H1 H2]; auto.
      * intros [[->|H1] H2]; [congruence|auto].
Qed.

Lemma listing_entries_elem env d :
  d ∈ listing_entries env ->
  exists response news_items k item,
    requests_get env listing_url = Ret response /\
    soup_list_news response = Some news_items /\
    news_items !! k = Some item /\
    entry_of env (1 + Z.of_nat k) item = Some d.
Proof.
  unfold listing_entries.
  destruct (requests_get env listing_url) as [response|] eqn:Hget;
    [|intros H; apply elem_of_nil in H; contradiction].
  destruct (soup_list_news response) as [news_items|] eqn:Hlist;
    [|intros H; apply elem_of_nil in H; contradiction].
  intros H. apply entries_of_elem in H as (k & item & Hk & He).
  exists response, news_items, k, item. repeat split; assumption.
Qed.

Lemma listing_entries_keys env :
  Forall (fun d => is_Some (d !! "index") /\ is_Some (d !! "title") /\
                   is_Some (d !! "url") /\
                   exists b, d !! "is_competition" = Some (VBool b))
    (listing_entries env).
Proof.
  apply Forall_forall. intros d Hd.
  apply listing_entries_elem in Hd as (_ & _ & k & item & _ & _ & _ & He).
  apply entry_of_keys in He as (Hi & (t & _ & Ht) & Hu & Hb).
  rewrite Hi, Ht, Hu. eauto.
Qed.

(** One pass: the listing is fetched, then only entries of the listing that
    are flagged and have content are stored or pushed. *)
Lemma run_task_frame env st :
  exists r db' evs,
    run_task env st =
      (r, {| db := db'; chat_ids := chat_ids st;
             log := log st ++ listing_events env ++ evs |}) /\
    (forall c', EvPush c' ∈ evs ->
       c' ∈ listing_entries env /\ is_Some (c' !! "content") /\
       c' !! "is_competition" = Some (VBool true)) /\
    Forall (fun e => is_sleep e = false) evs /\
    (forall id,
       (forall c, c ∈ listing_entries env -> is_Some (c !! "content") ->
        c !! "is_competition" = Some (VBool true) ->
        forall row, row_of env c = Ret row -> r_id row <> id) ->
       db' !! id = db st !! id) /\
    (fault_free env -> r = Ret tt).
Proof.
  unfold run_task, bind. rewrite fetch_news_urls_run. unfold lift.
  pose proof (listing_entries_keys env) as Hkeys.
  destruct (competition_news_of_run (listing_entries env)) as (l & -> & Hl).
  { eapply Forall_impl; [exact Hkeys|]. intros d (_ & _ & _ & Hb). exact Hb. }
  destruct (run_loop_frame env l (add_log st (listing_events env)))
    as (r & db' & evs & E & Hp & Hs & Hd & Hr).
  cbn [add_log db chat_ids log] in E, Hd. rewrite E.
  exists r, db', evs. rewrite app_assoc.
  split; [reflexivity|]. split; [|split; [exact Hs|split]].
  - intros c' H. apply Hp in H as [Hin Hc]. apply Hl in Hin as [Hin Hflag]. auto.
  - intros id Hid. apply Hd. intros c Hin Hc. apply Hl in Hin as [Hin Hflag].
    apply Hid; assumption.
  - intros Hff. apply Hr; [exact Hff|].
    apply Forall_forall. intros c Hin. apply Hl in Hin as [Hin _].
    rewrite Forall_forall in Hkeys. destruct (Hkeys c Hin) as (Hi & Ht & Hu & _). auto.
Qed.

(** An entry that is not flagged or has no content is neither stored nor
    pushed by the pass that fetched it. *)
Lemma pass_skips env st response news_items k item d :
  requests_get env listing_url = Ret response ->
  soup_list_news response = Some news_items ->
  news_items !! k = Some item ->
  entry_of env (1 + Z.of_nat k) item = Some d ->
  skipped d ->
  db (run_task env st).2 !! str_of_int (1 + Z.of_nat k) =
    db st !! str_of_int (1 + Z.of_nat k) /\
  exists evs,
    log (run_task env st).2 = log st ++ evs /\
    ~ pushed (1 + Z.of_nat k) evs.
Proof.
  intros Hget Hlist Hk He Hskip.
  assert (Hsame : forall c,
            c ∈ listing_entries env -> is_Some (c !! "content") ->
            c !! "is_competition" = Some (VBool true) ->
            c !! "index" <> Some (VInt (1 + Z.of_nat k))).
  { intros c Hin Hc Hflag Hidx.
    apply listing_entries_elem in Hin as (r' & items' & k' & item' & Hget' & Hlist' & Hk' & He').
    rewrite Hget in Hget'. injection Hget' as <-.
    rewrite Hlist in Hlist'. injection Hlist' as <-.
    pose proof (entry_of_keys _ _ _ _ He') as (Hi' & _).
    rewrite Hi' in Hidx. injection Hidx as Hkk.
    assert (k' = k) as -> by lia.
    rewrite Hk in Hk'. injection Hk' as <-.
    rewrite He in He'. injection He' as <-.
    destruct Hskip as [Hs|Hs]; [congruence|].
    rewrite Hs in Hc. destruct Hc; discriminate. }
  destruct (run_task_frame env st) as (r & db' & evs & E & Hp & _ & Hd & _).
  rewrite E. cbn [snd db log]. split.
  - apply Hd. intros c Hin Hc Hflag row Hrow Hid.
    apply row_of_id in Hrow as (index & Hindex & Hrid).
    apply (Hsame c Hin Hc Hflag).
    pose proof Hin as Hin'.
    apply listing_entries_elem in Hin' as (_ & _ & k' & item' & _ & _ & _ & He').
    apply entry_of_keys in He' as (Hi' & _).
    rewrite Hi' in Hindex. injection Hindex as <-.
    rewrite Hi'. do 2 f_equal.
    simpl in Hrid. rewrite Hrid in Hid.
    apply str_of_int_inj in Hid; [exact Hid|lia|lia].
  - exists (listing_events env ++ evs). split; [reflexivity|].
    intros (c & Hin & Hidx). apply elem_of_app in Hin as [Hin|Hin].
    + pose proof (listing_events_get env) as Hg. rewrite Forall_forall in Hg.
      apply Hg in Hin. discriminate.
    + apply Hp in Hin as (Hin & Hc & Hflag). exact (Hsame c Hin Hc Hflag Hidx).
Qed.

(** * The claims *)

(** ** Text extractor *)

(** C10. [get_text_from_image] is total: for every image URL it returns a
    string and never raises. The string is empty when the download raises,
    when the status of the response is not 200, when decoding or recognition
    raises, and when walking the recognition result raises; otherwise it is
    the recognised lines joined by newlines. The call performs exactly one
    request. *)
Theorem get_text_from_image_total env image_url st :
  exists text,
    get_text_from_image env image_url st =
      (Ret text, add_log st [EvGet image_url]) /\
    (forall e, requests_get env image_url = Raise e -> text = []) /\
    (forall response,
       requests_get env image_url = Ret response ->
       status_code response <> 200%Z -> text = []) /\
    (forall response e,
       requests_get env image_url = Ret response ->
       image_ocr response = Raise e -> text = []) /\
    (forall response result e,
       requests_get env image_url = Ret response ->
       image_ocr response = Ret result ->
       ocr_text_list result = Raise e -> text = []) /\
    (forall response result text_list,
       requests_get env image_url = Ret response ->
       status_code response = 200%Z ->
       image_ocr response = Ret result ->
       ocr_text_list result = Ret text_list -> text = join [NL] text_list).
Proof.
  exists (image_text env image_url).
  split; [apply get_text_from_image_run|].
  unfold image_text.
  split; [intros e ->; reflexivity|].
  split.
  { intros response -> Hs. apply Z.eqb_neq in Hs. now rewrite Hs. }
  split.
  { intros response e -> ->. destruct (negb _); reflexivity. }
  split.
  { intros response result e -> -> ->. destruct (negb _); reflexivity. }
  intros response result text_list -> Hs -> ->.
  apply Z.eqb_eq in Hs. now rewrite Hs.
Qed.

(** ** Listing fetcher *)

(** C7, as the code has it. [fetch_news_urls] never raises. It returns the
    empty list when the request for the listing page raises and when the
    page holds no news list. The status code of the response is not looked
    at: whenever the page holds a news list, the entries of that list are
    returned. *)
Theorem fetch_news_urls_never_raises env st :
  exists news_urls,
    fetch_news_urls env st = (Ret news_urls, add_log st (listing_events env)) /\
    (forall e, requests_get env listing_url = Raise e -> news_urls = []) /\
    (forall response,
       requests_get env listing_url = Ret response ->
       soup_list_news response = None -> news_urls = []) /\
    (forall response news_items,
       requests_get env listing_url = Ret response ->
       soup_list_news response = Some news_items ->
       news_urls = entries_of env 1 news_items).
Proof.
  exists (listing_entries env).
  split; [apply fetch_news_urls_run|].
  unfold listing_entries.
  split; [intros e ->; reflexivity|].
  split; [intros response -> ->; reflexivity|].
  intros response news_items -> ->. reflexivity.
Qed.

(** C7, as stated, fails: the listing request of [demo_world_503] is
    answered with status 503, and [fetch_news_urls] returns three
    entries. *)
Lemma fetch_news_urls_ignores_status :
  (exists response,
     requests_get demo_world_503 listing_url = Ret response /\
     status_code response = 503%Z) /\
  exists news_urls st',
    fetch_news_urls demo_world_503 demo_state = (Ret news_urls, st') /\
    length news_urls = 3%nat.
Proof.
  split.
  - eexists. split; reflexivity.
  - rewrite fetch_news_urls_run. eexists _, _. split; [reflexivity|].
    vm_compute. reflexivity.
Qed.

(** ** Dedup store *)

(** C1. Two calls of [save_competition] with the same id, the id not being
    stored before and the store raising no error of its own: the first call
    returns [True] and stores its row, the second returns [False] and
    leaves the table as the first call left it, whatever the second
    announcement and the time of the second call. *)
Theorem save_competition_twice env1 env2 c1 c2 row1 row2 st :
  row_of env1 c1 = Ret row1 ->
  row_of env2 c2 = Ret row2 ->
  r_id row2 = r_id row1 ->
  db st !! r_id row1 = None ->
  sqlite_fault env1 row1 = false ->
  sqlite_fault env2 row2 = false ->
  exists st1 st2,
    save_competition env1 c1 st = (Ret true, st1) /\
    save_competition env2 c2 st1 = (Ret false, st2) /\
    db st1 !! r_id row1 = Some row1 /\
    db st2 !! r_id row1 = Some row1 /\
    st2 = st1.
Proof.
  intros Hr1 Hr2 Hid Hnew Hf1 Hf2.
  set (st1 := {| db := <[r_id row1 := row1]> (db st);
                 chat_ids := chat_ids st; log := log st |}).
  assert (Hst1 : db st1 !! r_id row1 = Some row1) by apply lookup_insert_eq.
  exists st1, st1.
  split; [rewrite save_competition_run, Hr1, Hf1, Hnew; reflexivity|].
  split; [rewrite save_competition_run, Hr2, Hf2, Hid, Hst1; reflexivity|].
  auto.
Qed.

Lemma save_competition_twice_witness :
  exists st1 st2,
    save_competition demo_world
      (bare_info 1 (u "参赛须知") (u "2024-03-01") (u "https://www.sun-ada.net/a") true)
      demo_state = (Ret true, st1) /\
    save_competition demo_world_later
      (bare_info 1 (u "学校放假通知") (u "2024-03-02") (u "https://www.sun-ada.net/b") true)
      st1 = (Ret false, st2) /\
    (r_title <$> db st2 !! u "1") = Some (VStr (u "参赛须知")) /\
    (r_created_at <$> db st2 !! u "1") = Some 1000%Z.
Proof.
  destruct (save_competition_twice demo_world demo_world_later
              (bare_info 1 (u "参赛须知") (u "2024-03-01") (u "https://www.sun-ada.net/a") true)
              (bare_info 1 (u "学校放假通知") (u "2024-03-02") (u "https://www.sun-ada.net/b") true)
              _ _ demo_state eq_refl eq_refl eq_refl eq_refl eq_refl eq_refl)
    as (st1 & st2 & H1 & H2 & _ & H4 & _).
  exists st1, st2. split; [exact H1|]. split; [exact H2|].
  change (u "1") with
    (r_id {| r_id := py_str (VInt 1); r_title := VStr (u "参赛须知");
             r_url := VStr (u "https://www.sun-ada.net/a");
             r_date_info := VStr []; r_requirements := VStr [];
             r_organizer := VStr []; r_undertaker := VStr [];
             r_platform := platform; r_created_at := 1000 |}).
  split; (etransitivity; [apply (f_equal (fmap _)); exact H4|reflexivity]).
Defined.



Lemma no_keyword_not_competition title :
  (forall keyword, keyword ∈ competition_keywords ->
     ~ exists a b, title = a ++ keyword ++ b) ->
  is_competition_title title = false.
Proof.
  intros H. unfold is_competition_title.
  destruct (existsb _ competition_keywords) eqn:E; [|reflexivity].
  apply existsb_exists in E as (keyword & Hin & Hc).
  apply list_elem_of_In in Hin. apply contains_spec in Hc.
  destruct (H keyword Hin Hc).
Qed.

(** C5. A list item whose title contains none of the keywords is recorded
    without any request (its page is neither fetched nor parsed), and the
    pass that fetched it neither stores a row under its id nor calls
    [push_message] for it. *)
Theorem irrelevant_entry_untouched env st response news_items k item title :
  requests_get env listing_url = Ret response ->
  soup_list_news response = Some news_items ->
  news_items !! k = Some item ->
  item_title item = Some title ->
  (forall keyword, keyword ∈ competition_keywords ->
     ~ exists a b, title = a ++ keyword ++ b) ->
  let index := (1 + Z.of_nat k)%Z in
  (forall st0,
     fetch_item env index item st0 =
       (Ret (Some (bare_info index title (item_date item) (item_url item) false)),
        st0)) /\
  db (run_task env st).2 !! str_of_int index = db st !! str_of_int index /\
  exists evs,
    log (run_task env st).2 = log st ++ evs /\
    ~ pushed index evs.
Proof.
  intros Hget Hlist Hk Ht Hkw index.
  apply no_keyword_not_competition in Hkw.
  assert (He : entry_of env index item =
               Some (bare_info index title (item_date item) (item_url item) false)).
  { unfold entry_of. now rewrite Ht, Hkw. }
  split.
  - intros st0. rewrite fetch_item_run, He. unfold item_events.
    now rewrite Ht, Hkw, add_log_nil.
  - apply (pass_skips env st response news_items k item _ Hget Hlist Hk He).
    left. reflexivity.
Qed.

Lemma irrelevant_entry_untouched_witness :
  fetch_item demo_world 3 (news_item (u "学校放假通知") (u "news/2.html")) demo_state =
    (Ret (Some (bare_info 3 (u "学校放假通知") (u "2024-03-01")
                  (u "https://www.sun-ada.net/news/2.html") false)),
     demo_state) /\
  db (run_task demo_world demo_state).2 !! u "3" = None /\
  ~ pushed 3 (log (run_task demo_world demo_state).2).
Proof.
  destruct (irrelevant_entry_untouched demo_world demo_state
              (html_page 200 (Some demo_items) []) demo_items 2
              (news_item (u "学校放假通知") (u "news/2.html")) (u "学校放假通知")
              eq_refl eq_refl eq_refl eq_refl) as (H1 & H2 & evs & H3 & H4).
  - intros keyword Hin Hc. apply contains_spec in Hc. revert Hc.
    apply list_elem_of_In in Hin.
    repeat (destruct Hin as [<-|Hin]; [vm_compute; discriminate|]).
    destruct Hin.
  - split; [exact (H1 demo_state)|]. split; [exact H2|].
    rewrite H3. exact H4.
Defined.

(** C4, as the code has it. A relevant item whose page cannot be
    extracted is returned by [fetch_news_urls] as a bare record (index,
    title, date, url and the flag, no extracted field), and the pass that
    fetched it neither stores a row under its id nor calls [push_message]
    for it. *)
Theorem failed_extraction_dropped env st response news_items k item title :
  requests_get env listing_url = Ret response ->
  soup_list_news response = Some news_items ->
  news_items !! k = Some item ->
  item_title item = Some title ->
  is_competition_title title = true ->
  (parse_news_content env (item_url item) st).1 = Ret None ->
  let index := (1 + Z.of_nat k)%Z in
  let bare := bare_info index title (item_date item) (item_url item) true in
  (exists news_urls st',
     fetch_news_urls env st = (Ret news_urls, st') /\ bare ∈ news_urls) /\
  db (run_task env st).2 !! str_of_int index = db st !! str_of_int index /\
  exists evs,
    log (run_task env st).2 = log st ++ evs /\
    ~ pushed index evs.
Proof.
  intros Hget Hlist Hk Ht Hkw Hfail index bare.
  rewrite parse_news_content_run in Hfail. injection Hfail as Hfail.
  assert (He : entry_of env index item = Some bare).
  { unfold entry_of. now rewrite Ht, Hkw, Hfail. }
  split.
  - exists (listing_entries env), (add_log st (listing_events env)).
    split; [apply fetch_news_urls_run|].
    unfold listing_entries. rewrite Hget, Hlist.
    exact (entries_of_lookup env news_items 1 k item bare Hk He).
  - apply (pass_skips env st response news_items k item _ Hget Hlist Hk He).
    right. reflexivity.
Qed.

Lemma failed_extraction_dropped_witness :
  (exists news_urls st',
     fetch_news_urls demo_world demo_state = (Ret news_urls, st') /\
     bare_info 4 (u "参赛须知") (u "2024-03-01")
       (u "https://www.sun-ada.net/news/3.html") true ∈ news_urls) /\
  db (run_task demo_world demo_state).2 !! u "4" = None.
Proof.
  destruct (failed_extraction_dropped demo_world demo_state
              (html_page 200 (Some demo_items) []) demo_items 3
              (news_item (u "参赛须知") (u "/news/3.html")) (u "参赛须知")
              eq_refl eq_refl eq_refl eq_refl
              ltac:(vm_compute; reflexivity) ltac:(vm_compute; reflexivity))
    as (H1 & H2 & _).
  split; [exact H1|exact H2].
Defined.

(** C4, as stated, fails. In [demo_world] the fourth item is relevant and
    its page cannot be fetched; the pass does not hand it to the
    formatting and notification layer: [push_message] is called for the
    first entry, whose page could be extracted, and not for the fourth. *)
Lemma failed_extraction_not_pushed :
  demo_items !! 3%nat = Some (news_item (u "参赛须知") (u "/news/3.html")) /\
  is_competition_title (u "参赛须知") = true /\
  (parse_news_content demo_world
     (item_url (news_item (u "参赛须知") (u "/news/3.html"))) demo_state).1 = Ret None /\
  pushed 1 (log (run_task demo_world demo_state).2) /\
  ~ pushed 4 (log (run_task demo_world demo_state).2).
Proof.
  split; [reflexivity|]. split; [vm_compute; reflexivity|].
  split; [vm_compute; reflexivity|].
  split.
  { exists (default ∅ (entry_of demo_world 1
                         (news_item (u "2024年全国大学生广告大赛征集启事")
                            (u "/news/1.html")))).
    split; [|vm_compute; reflexivity].
    apply list_elem_of_In. vm_compute.
    repeat first [left; reflexivity | right]. }
  destruct (pass_skips demo_world demo_state
              (html_page 200 (Some demo_items) []) demo_items 3
              (news_item (u "参赛须知") (u "/news/3.html"))
              (bare_info 4 (u "参赛须知") (u "2024-03-01")
                 (u "https://www.sun-ada.net/news/3.html") true)
              eq_refl eq_refl eq_refl ltac:(vm_compute; reflexivity)
              (or_intror eq_refl)) as (_ & evs & Hlog & Hno).
  rewrite Hlog. exact Hno.
Qed.

(** ** Field matcher and content extractor *)

Lemma or_sentinel_some v sentinel : v <> [] -> or_sentinel (Some v) sentinel = v.
Proof.
  intros H. unfold or_sentinel, nonempty. now rewrite bool_decide_eq_false_2.
Qed.

(** The value stored under a category's key. *)
Lemma field_matched_or_sentinel U text f :
  matched_or_sentinel U text f
    (or_sentinel (family_match U f text) (family_sentinel f)).
Proof.
  destruct (family_match_spec U text f) as
    [[-> _]|(pre & p & post & groups & v & E & _ & Hp & Hv & Hne & ->)].
  - left. reflexivity.
  - right. exists p, groups. rewrite or_sentinel_some by exact Hne.
    split; [|split; assumption].
    rewrite E. apply elem_of_app. right. apply elem_of_cons. now left.
Qed.

Lemma extracted_dict_fields U text f :
  exists v,
    content_dict text
      (or_sentinel (family_match U DateInfo text) no_date_info)
      (or_sentinel (family_match U Requirements text) no_requirements)
      (or_sentinel (family_match U Organizer text) no_organizer)
      (or_sentinel (family_match U Undertaker text) no_undertaker)
      !! family_key f = Some (VStr v) /\
    v = or_sentinel (family_match U f text) (family_sentinel f) /\
    matched_or_sentinel U text f v.
Proof.
  eexists. split; [apply content_dict_lookup|].
  split; [destruct f; reflexivity|].
  pose proof (field_matched_or_sentinel U text f) as H. destruct f; exact H.
Qed.

(** C2. In each of the four families the patterns are tried in list
    order: when a pattern matches and none before it does, the field of
    the returned dictionary is what that pattern captured, namely its one
    group, or for a date range its two groups joined by 至. The patterns
    after it play no part, whether they would match or not: the family's
    loop gives this value with any patterns in their place. *)
Theorem first_match_wins U text f pre p post groups :
  family_patterns f = pre ++ p :: post ->
  Forall (no_match U text) pre ->
  re_search U p text = Some groups ->
  exists d v,
    extract_fields U text = Ret (Some d) /\
    d !! family_key f = Some (VStr v) /\
    (groups = [v] \/
     f = DateInfo /\ exists g1 g2, groups = [g1; g2] /\ v = g1 ++ u "至" ++ g2) /\
    forall post',
      match f with
      | DateInfo => match_date U (pre ++ p :: post') text = Some v
      | _ => match_group1 U (pre ++ p :: post') text = Ret (Some v)
      end.
Proof.
  intros E Hpre Hp.
  assert (Hv : exists v,
             (groups = [v] \/
              f = DateInfo /\ exists g1 g2, groups = [g1; g2] /\ v = g1 ++ zhi ++ g2) /\
             v <> [] /\ family_match U f text = Some v).
  { destruct (decide (f = DateInfo)) as [->|Hf].
    - pose proof (date_patterns_groups) as Hall. cbn [family_patterns] in E.
      rewrite E in Hall. apply Forall_app in Hall as [_ Hall].
      apply Forall_cons in Hall as [Hd _].
      cbn [family_match]. rewrite E, (match_date_first U text _ _ _ _ Hpre Hp).
      destruct Hd as [H1|(m & n & Hmn)].
      + destruct (one_group_match U text _ _ H1 Hp) as (g & -> & Hg).
        exists g. split; [left; reflexivity|]. split; [exact Hg|reflexivity].
      + pose proof Hp as Hgr. apply re_search_groups in Hgr. rewrite Hmn in Hgr.
        inversion Hgr as [|g1 ? gs ? _ Hrest]; subst.
        inversion Hrest as [|g2 ? gs' ? _ Hrest']; subst. inversion Hrest'; subst.
        exists (g1 ++ zhi ++ g2).
        split; [right; split; [reflexivity|]; exists g1, g2; split; reflexivity|].
        split; [|reflexivity].
        intros En. apply app_eq_nil in En as [_ En]. discriminate.
    - pose proof (families_one_group f Hf) as Hall. rewrite E in Hall.
      apply Forall_app in Hall as [_ Hall]. apply Forall_cons in Hall as [Hone _].
      destruct (one_group_match U text _ _ Hone Hp) as (g & -> & Hg).
      exists g. split; [left; reflexivity|]. split; [exact Hg|].
      pose proof (match_group1_family U text f Hf) as Hm. rewrite E in Hm.
      rewrite (match_group1_first U text _ _ _ _ Hpre Hp) in Hm. simpl in Hm.
      congruence. }
  destruct Hv as (v & Hshape & Hne & Hm).
  destruct (extracted_dict_fields U text f) as (v' & Hlook & -> & _).
  rewrite Hm, (or_sentinel_some v _ Hne) in Hlook.
  eexists _, v. split; [apply extract_fields_run|].
  split; [exact Hlook|]. split; [exact Hshape|].
  intros post'.
  assert (Hloops :
            (f = DateInfo -> match_date U (pre ++ p :: post') text = Some v) /\
            (f <> DateInfo ->
             match_group1 U (pre ++ p :: post') text = Ret (Some v))).
  { split.
    - intros Hf. rewrite (match_date_first U text _ _ _ _ Hpre Hp).
      destruct Hshape as [->|(_ & g1 & g2 & -> & ->)]; reflexivity.
    - intros Hf. rewrite (match_group1_first U text _ _ _ _ Hpre Hp).
      destruct Hshape as [->|(Hd & _)]; [reflexivity|congruence]. }
  destruct Hloops as [Hdate Hother].
  destruct f; [apply Hdate; reflexivity|apply Hother; discriminate..].
Qed.

Lemma first_match_wins_witness :
  (re_search ascii_tables (field_pattern "主办单位") two_organizers = Some [u "乙"] /\
   exists d,
     extract_fields ascii_tables two_organizers = Ret (Some d) /\
     d !! "organizer" = Some (VStr (u "甲"))) /\
  (re_search ascii_tables (nth 2 date_patterns REmpty) labelled_window =
     Some [u "2024年3月1日"; u "2024年6月1日"] /\
   exists d,
     extract_fields ascii_tables labelled_window = Ret (Some d) /\
     d !! "date_info" = Some (VStr (u "2024年3月1日至2024年6月1日"))) /\
  (re_search ascii_tables (nth 4 date_patterns REmpty) bare_window =
     Some [u "2024年3月1日"; u "2024年6月1日"] /\
   exists d,
     extract_fields ascii_tables bare_window = Ret (Some d) /\
     d !! "date_info" = Some (VStr (u "2024年3月1日至2024年6月1日"))).
Proof.
  split; [|split].
  - split; [vm_compute; reflexivity|].
    destruct (first_match_wins ascii_tables two_organizers Organizer []
                (field_pattern "主办")
                [field_pattern "主办单位"; field_pattern "主办方"]
                [u "甲"]
                ltac:(vm_compute; reflexivity)
                (Forall_nil_2 _)
                ltac:(vm_compute; reflexivity))
      as (d & v & Hd & Hlook & Hshape & _).
    exists d. split; [exact Hd|].
    destruct Hshape as [Hv|(Hf & _)]; [|discriminate Hf].
    injection Hv as <-. exact Hlook.
  - split; [vm_compute; reflexivity|].
    destruct (first_match_wins ascii_tables labelled_window DateInfo
                (firstn 1 date_patterns) (nth 1 date_patterns REmpty)
                (skipn 2 date_patterns)
                [u "2024年3月1日至2024年6月1日"]
                ltac:(vm_compute; reflexivity)
                ltac:(repeat constructor)
                ltac:(vm_compute; reflexivity))
      as (d & v & Hd & Hlook & Hshape & _).
    exists d. split; [exact Hd|].
    destruct Hshape as [Hv|(_ & g1 & g2 & Hg & _)]; [|discriminate Hg].
    injection Hv as <-. exact Hlook.
  - split; [vm_compute; reflexivity|].
    destruct (first_match_wins ascii_tables bare_window DateInfo
                (firstn 2 date_patterns) (nth 2 date_patterns REmpty)
                (skipn 3 date_patterns)
                [u "2024年3月1日"; u "2024年6月1日"]
                ltac:(vm_compute; reflexivity)
                ltac:(repeat constructor)
                ltac:(vm_compute; reflexivity))
      as (d & v & Hd & Hlook & Hshape & _).
    exists d. split; [exact Hd|].
    destruct Hshape as [Hv|(_ & g1 & g2 & Hg & Hv)]; [discriminate Hv|].
    injection Hg as <- <-.
    replace (u "2024年3月1日至2024年6月1日") with v
      by (rewrite Hv; vm_compute; reflexivity).
    exact Hlook.
Defined.

(** C3, as the code has it. For every text the four fields of the
    dictionary built by the extractor are present, and each is the value
    captured by a pattern of its category or the category's sentinel. A
    relevant entry carries these four fields when its page could be
    fetched; when the page could not be fetched the entry is the bare
    record and carries none of them. *)
Theorem extracted_fields_present env text index item title st :
  item_title item = Some title ->
  is_competition_title title = true ->
  (exists d,
     extract_fields (unicode env) text = Ret (Some d) /\
     forall f, exists v,
       d !! family_key f = Some (VStr v) /\
       matched_or_sentinel (unicode env) text f v) /\
  exists d st',
    fetch_item env index item st = (Ret (Some d), st') /\
    match requests_get env (item_url item) with
    | Ret response =>
        forall f, exists v,
          d !! family_key f = Some (VStr v) /\
          matched_or_sentinel (unicode env) (raw_text env (soup_imgs response)) f v
    | Raise _ =>
        d = bare_info index title (item_date item) (item_url item) true /\
        forall f, d !! family_key f = None
    end.
Proof.
  intros Ht Hkw. split.
  - eexists. split; [apply extract_fields_run|].
    intros f. destruct (extracted_dict_fields (unicode env) text f) as (v & Hl & _ & Hok).
    exists v. split; assumption.
  - rewrite fetch_item_run. unfold entry_of. rewrite Ht, Hkw.
    destruct (requests_get env (item_url item)) as [response|e] eqn:Hget.
    + rewrite (page_info_fetched _ _ _ Hget).
      eexists _, _. split; [reflexivity|].
      intros f.
      destruct (extracted_dict_fields (unicode env)
                  (raw_text env (soup_imgs response)) f) as (v & Hl & _ & Hok).
      exists v. split; [|exact Hok].
      rewrite <- Hl. destruct f; reflexivity.
    + rewrite (page_info_failed _ _ _ Hget).
      eexists _, _. split; [reflexivity|].
      split; [reflexivity|]. intros f. destruct f; reflexivity.
Qed.

Lemma extracted_fields_present_witness :
  exists d st',
    fetch_item demo_world 1
      (news_item (u "2024年全国大学生广告大赛征集启事") (u "/news/1.html"))
      demo_state = (Ret (Some d), st') /\
    d !! "organizer" = Some (VStr (u "中国广告协会")) /\
    d !! "requirements" = Some (VStr (u "全体学生")) /\
    d !! "undertaker" = Some (VStr (u "某大学")).
Proof.
  destruct (extracted_fields_present demo_world [] 1
              (news_item (u "2024年全国大学生广告大赛征集启事") (u "/news/1.html"))
              (u "2024年全国大学生广告大赛征集启事") demo_state
              eq_refl ltac:(vm_compute; reflexivity))
    as (_ & d & st' & Hrun & _).
  exists d, st'. split; [exact Hrun|].
  rewrite fetch_item_run in Hrun. injection Hrun as Hd _. subst d.
  repeat split; vm_compute; reflexivity.
Defined.

(** C3, as stated, fails for an entry whose page cannot be fetched: the
    fourth entry of [demo_world] is relevant and carries none of the four
    fields. *)
Lemma failed_entry_has_no_fields :
  exists news_urls st' d,
    fetch_news_urls demo_world demo_state = (Ret news_urls, st') /\
    d ∈ news_urls /\
    d !! "index" = Some (VInt 4) /\
    d !! "is_competition" = Some (VBool true) /\
    d !! "date_info" = None /\
    d !! "requirements" = None /\
    d !! "organizer" = None /\
    d !! "undertaker" = None.
Proof.
  eexists _, _,
    (bare_info 4 (u "参赛须知") (u "2024-03-01")
       (u "https://www.sun-ada.net/news/3.html") true).
  split; [apply fetch_news_urls_run|].
  split; [|repeat split; reflexivity].
  apply (entries_of_lookup demo_world demo_items 1 3
           (news_item (u "参赛须知") (u "/news/3.html"))); [reflexivity|].
  vm_compute. reflexivity.
Qed.

Lemma raw_text_app env before after :
  raw_text env (before ++ after) = raw_text env before ++ raw_text env after.
Proof. unfold raw_text. now rewrite map_app, concat_app. Qed.

(** [raw_text] is made of the recognised texts that are not empty, each
    preceded by a newline. *)
Lemma raw_text_newlines env img_tags :
  raw_text env img_tags =
    concat (map (cons NL) (List.filter nonempty (recognised_texts env img_tags))).
Proof.
  unfold raw_text, recognised_texts.
  induction img_tags as [|img rest IH]; [reflexivity|].
  cbn [map concat List.filter]. unfold img_part at 1.
  destruct (nonempty (default [] (img_src img))); [|exact IH].
  cbn [map List.filter].
  destruct (nonempty (image_text env _)); cbn [map concat]; now rewrite IH.
Qed.

(** C8, as the code has it. The content of a page that could be fetched
    is, in the order of the images of the page, a newline followed by the
    recognised text of each image whose recognised text is not empty. An
    image on which [get_text_from_image] gives the empty string, as it does
    on every failure, adds nothing and leaves the contribution of the other
    images as it is. *)
Theorem raw_text_in_page_order env url response st :
  requests_get env url = Ret response ->
  exists d st',
    parse_news_content env url st = (Ret (Some d), st') /\
    d !! "content" = Some (VStr (raw_text env (soup_imgs response))) /\
    (forall img_url st0,
       (get_text_from_image env img_url st0).1 = Ret (image_text env img_url)) /\
    raw_text env (soup_imgs response) =
      concat (map (cons NL)
                (List.filter nonempty (recognised_texts env (soup_imgs response)))) /\
    (forall before img after st0,
       soup_imgs response = before ++ img :: after ->
       (get_text_from_image env
          (image_url_of (default [] (img_src img))) st0).1 = Ret [] ->
       raw_text env (soup_imgs response) =
         raw_text env before ++ raw_text env after).
Proof.
  intros Hget.
  pose proof (parse_news_content_run env url st) as Hrun.
  rewrite (page_info_fetched _ _ _ Hget) in Hrun.
  eexists _, _. split; [exact Hrun|].
  split; [reflexivity|].
  split; [intros img_url st0; now rewrite get_text_from_image_run|].
  split; [apply raw_text_newlines|].
  intros before img after st0 -> Hfail.
  rewrite get_text_from_image_run in Hfail. injection Hfail as Hfail.
  rewrite raw_text_app. f_equal.
  change (img :: after) with ([img] ++ after). rewrite raw_text_app.
  unfold raw_text at 1. cbn [map concat]. unfold img_part.
  destruct (nonempty (default [] (img_src img))); [|reflexivity].
  rewrite Hfail. reflexivity.
Qed.

Lemma raw_text_in_page_order_witness :
  exists d st',
    parse_news_content demo_world demo_page_url demo_state = (Ret (Some d), st') /\
    d !! "content" =
      Some (VStr (raw_text demo_world
                    [{| img_src := Some (u "/img/a.png") |};
                     {| img_src := Some (u "img/c.png") |}])).
Proof.
  destruct (raw_text_in_page_order demo_world demo_page_url
              (html_page 200 None
                 [u "/img/a.png"; u "http://cdn.example/b.png"; u "img/c.png"])
              demo_state ltac:(vm_compute; reflexivity))
    as (d & st' & Hrun & Hc & _ & _ & Hskip).
  exists d, st'. split; [exact Hrun|].
  rewrite Hc.
  rewrite (Hskip [{| img_src := Some (u "/img/a.png") |}]
             {| img_src := Some (u "http://cdn.example/b.png") |}
             [{| img_src := Some (u "img/c.png") |}] demo_state
             eq_refl ltac:(vm_compute; reflexivity)).
  rewrite <- raw_text_app. reflexivity.
Defined.

(** C8, as stated, fails. The page of the first item of [demo_world] shows
    three images; its content is not the concatenation of their recognised
    texts: each recognised text is preceded by a newline. *)
Lemma raw_text_is_not_plain_concatenation :
  exists d st',
    parse_news_content demo_world demo_page_url demo_state = (Ret (Some d), st') /\
    recognised_texts demo_world
      (soup_imgs (html_page 200 None
                    [u "/img/a.png"; u "http://cdn.example/b.png"; u "img/c.png"])) =
      [u "主办：中国广告协会" ++ [NL] ++ u "报名时间：2024年3月1日至2024年6月1日";
       [];
       u "承办单位: 某大学。" ++ [NL] ++ u "参赛对象:全体学生"] /\
    d !! "content" =
      Some (VStr ([NL] ++ u "主办：中国广告协会" ++
                  [NL] ++ u "报名时间：2024年3月1日至2024年6月1日" ++
                  [NL] ++ u "承办单位: 某大学。" ++
                  [NL] ++ u "参赛对象:全体学生")) /\
    d !! "content" <>
      Some (VStr (raw_text_as_specified demo_world
                    (soup_imgs (html_page 200 None
                       [u "/img/a.png"; u "http://cdn.example/b.png"; u "img/c.png"])))).
Proof.
  exists (default ∅ (page_info demo_world demo_page_url)),
    (add_log demo_state (page_events demo_world demo_page_url)).
  split; [rewrite parse_news_content_run; vm_compute; reflexivity|].
  split; [vm_compute; reflexivity|].
  split; [vm_compute; reflexivity|].
  vm_compute. discriminate.
Qed.

(** ** Scheduler *)

Lemma filter_is_sleep_none evs :
  Forall (fun e => is_sleep e = false) evs -> List.filter is_sleep evs = [].
Proof.
  induction 1 as [|e evs He _ IH]; [reflexivity|]. simpl. now rewrite He.
Qed.







(** * Further properties of the code *)

(** ** The matcher, continued *)

Lemma rep_match_sound {A} ok lo hi s (k : str -> option A) x :
  rep_match ok lo hi s k = Some x ->
  exists pre s',
    s = pre ++ s' /\ Forall (fun c => ok c = true) pre /\
    (lo <= length pre)%nat /\
    (forall h, hi = Some h -> (length pre <= h)%nat) /\
    k s' = Some x.
Proof.
  revert lo hi. induction s as [|c s IH]; intros lo hi; simpl.
  - destruct lo; [|discriminate]. intros H. exists [], [].
    repeat split; [constructor|simpl; lia|intros; simpl; lia|exact H].
  - assert (Hstop : match lo with O => k (c :: s) | S _ => None end = Some x ->
              exists pre s', c :: s = pre ++ s' /\ Forall (fun c => ok c = true) pre /\
                (lo <= length pre)%nat /\
                (forall h, hi = Some h -> (length pre <= h)%nat) /\ k s' = Some x).
    { destruct lo; [|discriminate]. intros H. exists [], (c :: s).
      repeat split; [constructor|simpl; lia|intros; simpl; lia|exact H]. }
    destruct (ok c) eqn:Hc; [|exact Hstop]. simpl.
    destruct (can_take hi) eqn:Hh; [|exact Hstop].
    destruct (rep_match ok (pred lo) (pred <$> hi) s k) eqn:E; [|exact Hstop].
    intros [= ->]. apply IH in E as (pre & s' & -> & Hpre & Hlo & Hhi & Hk).
    exists (c :: pre), s'. repeat split.
    + constructor; assumption.
    + simpl. lia.
    + intros h ->. destruct h as [|h]; [discriminate|].
      simpl. specialize (Hhi h eq_refl). lia.
    + exact Hk.
Qed.

(** Soundness of the matcher: a successful match consumes a prefix made of
    characters of the pattern, and hands on one capture per group. *)
Lemma rmatch_sound {A} U r : forall s caps (k : str -> list str -> option A) x,
  rmatch U r s caps k = Some x ->
  exists pre s' new,
    s = pre ++ s' /\
    capture_of U pre r /\
    Forall2 (capture_of U) new (groups_of r) /\
    k s' (caps ++ new) = Some x.
Proof.
  unfold capture_of.
  induction r as [|a|a lo hi|r1 IH1|r1 IH1 r2 IH2]; intros s caps k x; simpl.
  - intros H. exists [], s, []. rewrite app_nil_r.
    repeat split; [constructor|simpl; lia|constructor|exact H].
  - destruct s as [|c s]; [discriminate|].
    destruct (atom_match U a c) eqn:Hc; [|discriminate].
    intros H. exists [c], s, []. rewrite app_nil_r.
    repeat split; [repeat constructor; exact Hc|simpl; lia|constructor|exact H].
  - intros H. apply rep_match_sound in H as (pre & s' & -> & Hpre & Hlo & _ & Hk).
    exists pre, s', []. rewrite app_nil_r.
    repeat split; [exact Hpre|exact Hlo|constructor|exact Hk].
  - intros H. apply IH1 in H as (pre & s' & new & -> & [Hpre Hlen] & Hnew & Hk).
    rewrite length_app in Hk.
    replace (length pre + length s' - length s')%nat with (length pre) in Hk by lia.
    rewrite take_app_length in Hk.
    exists pre, s', (new ++ [pre]). rewrite app_assoc.
    repeat split; [exact Hpre|exact Hlen| |exact Hk].
    apply Forall2_app; [exact Hnew|]. repeat constructor; assumption.
  - intros H. apply IH1 in H as (pre1 & s1 & new1 & -> & [Hpre1 Hlen1] & Hnew1 & Hk1).
    apply IH2 in Hk1 as (pre2 & s2 & new2 & -> & [Hpre2 Hlen2] & Hnew2 & Hk2).
    exists (pre1 ++ pre2), s2, (new1 ++ new2).
    split; [now rewrite <- app_assoc|]. repeat split.
    + apply Forall_app. split.
      * eapply Forall_impl; [exact Hpre1|]. intros c Hc. simpl in Hc |- *. now rewrite Hc.
      * eapply Forall_impl; [exact Hpre2|]. intros c Hc. simpl in Hc |- *.
        rewrite Hc. apply orb_true_r.
    + rewrite length_app. lia.
    + eapply Forall2_app; [|exact Hnew2].
      eapply Forall2_impl; [exact Hnew1|]. intros cap g [H1 H2]. split; assumption.
    + rewrite app_assoc. exact Hk2.
Qed.

Lemma re_search_sound U r s groups :
  re_search U r s = Some groups ->
  Forall2 (capture_of U) groups (groups_of r) /\
  exists before matched after,
    s = before ++ matched ++ after /\ capture_of U matched r.
Proof.
  induction s as [|c s IH]; simpl.
  - destruct (rmatch U r [] [] _) eqn:E; [|discriminate].
    intros [= ->]. apply rmatch_sound in E as (pre & s' & new & Hs & Hpre & Hnew & Hk).
    simpl in Hk. injection Hk as <-. split; [exact Hnew|].
    exists [], pre, s'. split; [exact Hs|exact Hpre].
  - destruct (rmatch U r (c :: s) [] _) eqn:E.
    + intros [= ->]. apply rmatch_sound in E as (pre & s' & new & Hs & Hpre & Hnew & Hk).
      simpl in Hk. injection Hk as <-. split; [exact Hnew|].
      exists [], pre, s'. split; [exact Hs|exact Hpre].
    + intros H. apply IH in H as (Hg & before & matched & after & -> & Hm).
      split; [exact Hg|]. exists (c :: before), matched, after. split; [reflexivity|exact Hm].
Qed.

(** A pattern that needs at least one character finds nothing in the empty
    text. *)
Lemma re_search_empty U r : (0 < min_len r)%nat -> re_search U r [] = None.
Proof.
  intros Hr. destruct (re_search U r []) as [groups|] eqn:E; [|reflexivity].
  apply re_search_sound in E as (_ & before & matched & after & Hs & _ & Hlen).
  symmetry in Hs. apply app_eq_nil in Hs as [_ Hs]. apply app_eq_nil in Hs as [-> _].
  simpl in Hlen. lia.
Qed.

(** ** Content extractor, continued *)

Lemma family_patterns_need_text f :
  Forall (fun p => (0 < min_len p)%nat) (family_patterns f).
Proof.
  destruct f; repeat (apply List.Forall_cons; [vm_compute; lia|]); apply List.Forall_nil.
Qed.

Lemma family_match_empty U f : family_match U f [] = None.
Proof.
  destruct (family_match_spec U [] f) as
    [[H _]|(pre & p & post & groups & v & E & _ & Hp & _)]; [exact H|].
  pose proof (family_patterns_need_text f) as Hall. rewrite E in Hall.
  apply Forall_app in Hall as [_ Hall]. apply Forall_cons in Hall as [Hmin _].
  rewrite (re_search_empty U p Hmin) in Hp. discriminate.
Qed.

Lemma raw_text_nil env img_tags :
  Forall (fun img => img_part env img = []) img_tags -> raw_text env img_tags = [].
Proof.
  unfold raw_text. induction 1 as [|img rest H _ IH]; [reflexivity|].
  cbn [map concat]. now rewrite H, IH.
Qed.

(** X1. A page on which no image gives any text (it has no image, or its
    images have no source, cannot be fetched or show no text) is extracted
    with empty content and the four sentinels. *)
Theorem no_text_all_sentinels env url response st :
  requests_get env url = Ret response ->
  (forall img, img ∈ soup_imgs response ->
     nonempty (default [] (img_src img)) = true ->
     (get_text_from_image env (image_url_of (default [] (img_src img))) st).1 = Ret []) ->
  exists st',
    parse_news_content env url st =
      (Ret (Some (content_dict [] no_date_info no_requirements no_organizer
                    no_undertaker)), st').
Proof.
  intros Hget Himgs.
  assert (Hraw : raw_text env (soup_imgs response) = []).
  { apply raw_text_nil, Forall_forall. intros img Hin. unfold img_part.
    destruct (nonempty (default [] (img_src img))) eqn:Hsrc; [|reflexivity].
    specialize (Himgs img Hin Hsrc). rewrite get_text_from_image_run in Himgs.
    injection Himgs as ->. reflexivity. }
  eexists. rewrite parse_news_content_run, (page_info_fetched _ _ _ Hget), Hraw.
  rewrite !family_match_empty. reflexivity.
Qed.

Lemma no_text_all_sentinels_witness :
  exists d st',
    parse_news_content blank_world blank_page_url demo_state = (Ret (Some d), st') /\
    d !! "content" = Some (VStr []) /\
    d !! "organizer" = Some (VStr (u "未找到主办方")).
Proof.
  destruct (no_text_all_sentinels blank_world blank_page_url
              (html_page 200 None [u "/img/z.png"]) demo_state eq_refl) as (st' & H).
  - intros img Hin _. cbn [html_page soup_imgs map] in Hin.
    apply list_elem_of_singleton in Hin. subst img.
    rewrite get_text_from_image_run. vm_compute. reflexivity.
  - eexists _, st'. split; [exact H|]. split; reflexivity.
Defined.

Lemma field_patterns_groups f :
  f <> DateInfo ->
  Forall (fun p => groups_of p = [plus field_chars]) (family_patterns f).
Proof.
  destruct f; [congruence| | |]; intros _;
    repeat (apply List.Forall_cons; [reflexivity|]); apply List.Forall_nil.
Qed.

Lemma field_chars_match U c :
  atom_match U field_chars c = true -> c <> ch "。" /\ c <> NL.
Proof.
  unfold field_chars, noneof. cbn [atom_match map existsb item_match].
  intros H. split; intros ->; vm_compute in H; discriminate.
Qed.

(** X2. The extracted eligibility, organizer and co-organizer are never
    empty and never contain a full stop 。 or a line break, whatever the
    text: a captured value stops before them, and the sentinels hold
    neither. *)
Theorem field_value_shape U text f :
  f <> DateInfo ->
  exists d v,
    extract_fields U text = Ret (Some d) /\
    d !! family_key f = Some (VStr v) /\
    v <> [] /\
    Forall (fun c => c <> ch "。" /\ c <> NL) v.
Proof.
  intros Hf.
  destruct (extracted_dict_fields U text f) as (v & Hlook & Hv & _).
  eexists _, v. split; [apply extract_fields_run|]. split; [exact Hlook|].
  destruct (family_match_spec U text f) as
    [[Hnone _]|(pre & p & post & groups & v' & E & _ & Hp & Hval & Hne & Hsome)].
  - rewrite Hnone in Hv. subst v.
    destruct f; [congruence| | |];
      (split; [discriminate|]);
      repeat (apply List.Forall_cons; [split; vm_compute; discriminate|]);
      apply List.Forall_nil.
  - rewrite Hsome, (or_sentinel_some _ _ Hne) in Hv. subst v'.
    split; [exact Hne|].
    pose proof (field_patterns_groups f Hf) as Hall. rewrite E in Hall.
    apply Forall_app in Hall as [_ Hall]. apply Forall_cons in Hall as [Hg _].
    apply re_search_sound in Hp as [Hcaps _]. rewrite Hg in Hcaps.
    assert (Hgroups : groups = [v]).
    { inversion Hcaps as [|cap g caps gs _ Hrest]; subst.
      inversion Hrest; subst.
      destruct f; [congruence|simpl in Hval; congruence..]. }
    subst groups. apply Forall2_cons_1 in Hcaps as [[Hchars _] _].
    eapply Forall_impl; [exact Hchars|].
    intros c Hc. apply (field_chars_match U c). exact Hc.
Qed.

Lemma field_value_shape_witness :
  exists d v,
    extract_fields ascii_tables two_organizers = Ret (Some d) /\
    d !! "organizer" = Some (VStr v) /\
    v <> [] /\ Forall (fun c => c <> ch "。" /\ c <> NL) v.
Proof.
  exact (field_value_shape ascii_tables two_organizers Organizer ltac:(discriminate)).
Defined.

Lemma date_groups_chars U :
  Forall (fun p =>
            Forall (fun g => forall c, alphabet U g c = true -> date_char U c = true)
              (groups_of p))
    date_patterns.
Proof.
  unfold date_patterns.
  repeat (apply List.Forall_cons;
          [cbn [groups_of app];
           repeat (apply List.Forall_cons;
                   [intros c; unfold date_char, date_marks;
                    cbn [alphabet atom_match item_match existsb xorb];
                    repeat match goal with
                           | |- context [uni_digit U c] => destruct (uni_digit U c)
                           | |- context [uni_space U c] => destruct (uni_space U c)
                           | |- context [(c =? ?k)] => destruct (c =? k)
                           end;
                    cbn; congruence|]);
           apply List.Forall_nil|]);
    apply List.Forall_nil.
Qed.

(** X3. A found registration window is never empty and is made only of
    digits, whitespace and the characters 年 月 日 至 and the dot; otherwise
    the field is the sentinel. *)
Theorem date_info_shape U text :
  exists d v,
    extract_fields U text = Ret (Some d) /\
    d !! "date_info" = Some (VStr v) /\
    (v = no_date_info \/
     (v <> [] /\ Forall (fun c => date_char U c = true) v)).
Proof.
  destruct (extracted_dict_fields U text DateInfo) as (v & Hlook & Hv & _).
  eexists _, v. split; [apply extract_fields_run|]. split; [exact Hlook|].
  destruct (family_match_spec U text DateInfo) as
    [[Hnone _]|(pre & p & post & groups & v' & E & _ & Hp & Hval & Hne & Hsome)].
  - left. rewrite Hnone in Hv. exact Hv.
  - right. rewrite Hsome, (or_sentinel_some _ _ Hne) in Hv. subst v'.
    split; [exact Hne|].
    pose proof (date_groups_chars U) as Hall. cbn [family_patterns] in E.
    rewrite E in Hall.
    apply Forall_app in Hall as [_ Hall]. apply Forall_cons in Hall as [Hg _].
    apply re_search_sound in Hp as [Hcaps _].
    assert (Hok : Forall (Forall (fun c => date_char U c = true)) groups).
    { clear Hval. revert Hg. induction Hcaps as [|cap g caps gs [Hc _] _ IH];
        intros Hg; [constructor|].
      apply Forall_cons in Hg as [Hg1 Hg2]. constructor; [|exact (IH Hg2)].
      eapply Forall_impl; [exact Hc|]. exact Hg1. }
    cbn [family_value] in Hval. unfold date_value in Hval.
    destruct groups as [|g1 [|g2 [|g3 rest]]]; try discriminate.
    + injection Hval as <-. apply Forall_cons in Hok as [H1 _]. exact H1.
    + injection Hval as <-.
      apply Forall_cons in Hok as [H1 Hok]. apply Forall_cons in Hok as [H2 _].
      apply Forall_app. split; [exact H1|].
      constructor; [|exact H2]. unfold date_char.
      destruct (uni_digit U 33267), (uni_space U 33267); reflexivity.
Qed.

(** ** Text extractor, continued *)

Lemma ocr_lines_some (ls : list (list WordInfo)) : forall text_list,
  ocr_lines (map Some ls) text_list =
    Ret (text_list ++ concat (map (map wi_text) ls)).
Proof.
  induction ls as [|l ls IH]; intros text_list; simpl.
  - now rewrite app_nil_r.
  - rewrite IH. now rewrite <- app_assoc.
Qed.

Lemma ocr_lines_none lines : forall text_list,
  None ∈ lines -> ocr_lines lines text_list = Raise TypeError.
Proof.
  induction lines as [|[l|] lines IH]; intros text_list H.
  - apply elem_of_nil in H. contradiction.
  - apply elem_of_cons in H as [H|H]; [discriminate|]. simpl. apply IH. exact H.
  - reflexivity.
Qed.

(** X4. When the image is downloaded with status 200 and recognised, the
    text returned is all recognised entries, line after line, joined by
    line breaks. One line that is [None] among the lines of the result
    makes the whole text empty, whatever the other lines hold. *)
Theorem ocr_text_flattened env image_url response lines st :
  requests_get env image_url = Ret response ->
  status_code response = 200%Z ->
  image_ocr response = Ret (Some lines) ->
  exists text,
    get_text_from_image env image_url st =
      (Ret text, add_log st [EvGet image_url]) /\
    (None ∈ lines -> text = []) /\
    (forall ls, lines = map Some ls ->
       text = join [NL] (concat (map (map wi_text) ls))).
Proof.
  intros Hget Hs Hocr. eexists. split; [apply get_text_from_image_run|].
  unfold image_text. rewrite Hget, Hs, Hocr. cbn [Z.eqb negb Pos.eqb].
  unfold ocr_text_list. split.
  - intros Hnone. destruct lines as [|l ls]; [reflexivity|].
    now rewrite (ocr_lines_none _ [] Hnone).
  - intros ls ->. destruct ls as [|l ls]; [reflexivity|].
    pose proof (ocr_lines_some (l :: ls) []) as H. cbn [map] in H |- *.
    now rewrite H.
Qed.

Lemma ocr_text_flattened_witness :
  exists text st',
    get_text_from_image demo_world (base_url ++ u "/img/a.png") demo_state =
      (Ret text, st') /\
    text = u "主办：中国广告协会" ++ [NL] ++ u "报名时间：2024年3月1日至2024年6月1日".
Proof.
  destruct (ocr_text_flattened demo_world (base_url ++ u "/img/a.png")
              (image_with [u "主办：中国广告协会"; u "报名时间：2024年3月1日至2024年6月1日"])
              [Some [{| wi_text := u "主办：中国广告协会" |};
                     {| wi_text := u "报名时间：2024年3月1日至2024年6月1日" |}]]
              demo_state ltac:(vm_compute; reflexivity) eq_refl eq_refl)
    as (text & Hrun & _ & Hflat).
  exists text, (add_log demo_state [EvGet (base_url ++ u "/img/a.png")]).
  split; [exact Hrun|].
  rewrite (Hflat [[{| wi_text := u "主办：中国广告协会" |};
                   {| wi_text := u "报名时间：2024年3月1日至2024年6月1日" |}]] eq_refl).
  reflexivity.
Defined.

(** ** Listing fetcher, continued *)

Lemma url_of_href_absolute href : startswith (url_of_href href) (u "http") = true.
Proof.
  unfold url_of_href. destruct (startswith href (u "http")) eqn:E; [exact E|].
  destruct (startswith href (u "/")); reflexivity.
Qed.

Lemma image_url_of_absolute img_url :
  startswith (image_url_of img_url) (u "http") = true.
Proof.
  unfold image_url_of. destruct (startswith img_url (u "http")) eqn:E; [|reflexivity].
  exact E.
Qed.

Lemma lstrip_spec c s :
  exists k, s = repeat c k ++ lstrip c s /\ startswith (lstrip c s) [c] = false.
Proof.
  induction s as [|a s IH].
  - exists 0%nat. split; reflexivity.
  - cbn [lstrip]. destruct (a =? c) eqn:E.
    + apply N.eqb_eq in E as ->. destruct IH as (k & Hk & Hs).
      exists (S k). split; [|exact Hs]. cbn [repeat app]. now rewrite <- Hk.
    + exists 0%nat. split; [reflexivity|].
      cbn [startswith]. now rewrite N.eqb_sym, E.
Qed.

(** X5. Every request of the spider goes to a URL that starts with http,
    and so does the url of every entry it returns. A link or an image
    source that itself starts with http is used as it is (so is one such
    as httpx.png); any other is placed under the site's base URL, a link
    after at most one leading slash, an image source after all its leading
    slashes. *)
Theorem requests_are_absolute env st :
  exists news_urls evs,
    fetch_news_urls env st = (Ret news_urls, add_log st evs) /\
    Forall (fun e => exists url, e = EvGet url /\ startswith url (u "http") = true) evs /\
    Forall (fun d => exists url, d !! "url" = Some (VStr url) /\
                                 startswith url (u "http") = true) news_urls /\
    (forall raw, startswith raw (u "http") = true ->
       url_of_href raw = raw /\ image_url_of raw = raw) /\
    (forall raw, startswith raw (u "http") = false ->
       (exists rest,
          url_of_href raw = base_url ++ u "/" ++ rest /\
          (raw = rest \/ raw = u "/" ++ rest)) /\
       (exists k rest,
          image_url_of raw = base_url ++ u "/" ++ rest /\
          raw = repeat (ch "/") k ++ rest /\
          startswith rest (u "/") = false)).
Proof.
  exists (listing_entries env), (listing_events env).
  split; [apply fetch_news_urls_run|]. split; [|split; [|split]].
  - unfold listing_events. constructor; [exists listing_url; split; reflexivity|].
    destruct (requests_get env listing_url) as [response|]; [|constructor].
    destruct (soup_list_news response) as [news_items|]; [|constructor].
    apply Forall_concat, Forall_forall. intros evs Hevs.
    apply list_elem_of_fmap in Hevs as (item & -> & _).
    unfold item_events. destruct (item_title item) as [title|] eqn:Ht; [|constructor].
    destruct (is_competition_title title); [|constructor].
    unfold page_events. constructor.
    { eexists. split; [reflexivity|]. unfold item_url. unfold item_title in Ht.
      destruct (li_a item); [apply url_of_href_absolute|discriminate]. }
    destruct (requests_get env (item_url item)) as [r|]; [|constructor].
    apply Forall_concat, Forall_forall. intros evs Hevs.
    apply list_elem_of_fmap in Hevs as (img & -> & _).
    unfold img_events. destruct (nonempty _); [|constructor].
    constructor; [|constructor]. eexists. split; [reflexivity|].
    apply image_url_of_absolute.
  - apply Forall_forall. intros d Hd.
    apply listing_entries_elem in Hd as (_ & _ & k & item & _ & _ & _ & He).
    pose proof (entry_of_keys _ _ _ _ He) as (_ & (t & Ht & _) & Hu & _).
    exists (item_url item). split; [exact Hu|].
    unfold item_url. unfold item_title in Ht.
    destruct (li_a item); [apply url_of_href_absolute|discriminate].
  - intros raw Hraw. unfold url_of_href, image_url_of. now rewrite Hraw.
  - intros raw Hraw. unfold url_of_href, image_url_of. rewrite Hraw. cbn [negb].
    split.
    + destruct (startswith raw (u "/")) eqn:Hs.
      * apply startswith_spec in Hs as [rest ->]. exists rest.
        split; [reflexivity|right; reflexivity].
      * exists raw. split; [reflexivity|left; reflexivity].
    + destruct (lstrip_spec (ch "/") raw) as (k & Hk & Hs).
      exists k, (lstrip (ch "/") raw). split; [reflexivity|].
      split; [exact Hk|exact Hs].
Qed.

(** X6. The relevance flag of an entry is [True] exactly when one of the
    keywords occurs in its title as a substring. *)
Theorem relevance_is_keyword_substring env index item title st :
  item_title item = Some title ->
  exists d st' b,
    fetch_item env index item st = (Ret (Some d), st') /\
    d !! "is_competition" = Some (VBool b) /\
    (b = true <->
     exists keyword a c,
       keyword ∈ competition_keywords /\ title = a ++ keyword ++ c).
Proof.
  intros Ht.
  assert (Hrel : is_competition_title title = true <->
                 exists keyword a c,
                   keyword ∈ competition_keywords /\ title = a ++ keyword ++ c).
  { unfold is_competition_title. rewrite existsb_exists. split.
    - intros (keyword & Hin & Hc). apply list_elem_of_In in Hin.
      apply contains_spec in Hc as (a & c & Hc). eauto.
    - intros (keyword & a & c & Hin & Hc). exists keyword.
      split; [apply list_elem_of_In; exact Hin|]. apply contains_spec. eauto. }
  rewrite fetch_item_run. unfold entry_of. rewrite Ht.
  destruct (is_competition_title title) eqn:E.
  - destruct (page_info env (item_url item)); eexists _, _, true;
      (split; [reflexivity|split; [reflexivity|exact Hrel]]).
  - eexists _, _, false. split; [reflexivity|]. split; [reflexivity|].
    rewrite <- Hrel. split; intros; discriminate.
Qed.

Lemma relevance_is_keyword_substring_witness :
  exists d st',
    fetch_item demo_world 4 (news_item (u "参赛须知") (u "/news/3.html")) demo_state =
      (Ret (Some d), st') /\
    d !! "is_competition" = Some (VBool true).
Proof.
  destruct (relevance_is_keyword_substring demo_world 4
              (news_item (u "参赛须知") (u "/news/3.html")) (u "参赛须知")
              demo_state eq_refl) as (d & st' & b & Hrun & Hflag & Hb).
  exists d, st'. split; [exact Hrun|]. rewrite Hflag.
  replace b with true; [reflexivity|]. symmetry. apply Hb.
  exists (u "参赛"), [], (u "须知").
  split; [|vm_compute; reflexivity].
  apply list_elem_of_In. vm_compute. auto.
Defined.

(** ** The table across passes *)

Lemma row_of_entry_id env c row : row_of env c = Ret row -> r_id row = entry_id c.
Proof.
  intros H. apply row_of_id in H as (index & Hi & ->). unfold entry_id. now rewrite Hi.
Qed.

Lemma row_of_platform env c row : row_of env c = Ret row -> r_platform row = platform.
Proof.
  unfold row_of, getitem.
  destruct (c !! "index"); [|discriminate].
  destruct (c !! "title"); [|discriminate].
  destruct (c !! "url"); [|discriminate].
  intros [= <-]. reflexivity.
Qed.

Lemma row_of_has_keys env c row :
  row_of env c = Ret row -> is_Some (c !! "title") /\ is_Some (c !! "url").
Proof.
  unfold row_of, getitem.
  destruct (c !! "index"); [|discriminate].
  destruct (c !! "title"); [|discriminate].
  destruct (c !! "url"); [|discriminate].
  intros _. split; eauto.
Qed.

(** What one entry of a pass does to the state: nothing, or one new row
    under a fresh id followed by the call of [push_message] and its
    deliveries. *)
Lemma run_one_cases env c st :
  (run_one env c st).2 = st \/
  exists row evs,
    is_Some (c !! "content") /\ row_of env c = Ret row /\
    sqlite_fault env row = false /\ db st !! r_id row = None /\
    run_one env c st =
      (Ret tt,
       add_log {| db := <[r_id row := row]> (db st); chat_ids := chat_ids st;
                  log := log st |} (EvPush c :: evs)) /\
    Forall (fun e => is_push e = false /\ is_sleep e = false) evs.
Proof.
  unfold run_one, has_key.
  destruct (decide (is_Some (c !! "content"))) as [Hc|Hc];
    [rewrite bool_decide_eq_true_2 by exact Hc
    |rewrite bool_decide_eq_false_2 by exact Hc; left; reflexivity].
  unfold bind. rewrite save_competition_run.
  destruct (row_of env c) as [row|e] eqn:Erow; [|left; reflexivity].
  destruct (sqlite_fault env row) eqn:Ef; [left; reflexivity|].
  destruct (db st !! r_id row) eqn:Edb; [left; reflexivity|].
  right.
  destruct (push_message_run env c
              {| db := <[r_id row:=row]> (db st); chat_ids := chat_ids st;
                 log := log st |}) as (r & evs & Hrun & Hq & Hret).
  destruct (row_of_has_keys _ _ _ Erow) as [Ht Hu]. rewrite (Hret Ht Hu) in Hrun.
  exists row, evs. repeat split; try assumption.
Qed.


(** A property of the state that the logging of requests and waits keeps,
    and that one entry of a pass keeps, is kept by every run of the
    scheduler. *)
Lemma scheduled_task_invariant (P : State -> Prop) :
  (forall st evs, P st -> Forall (fun e => is_push e = false) evs -> P (add_log st evs)) ->
  (forall env c st, P st -> P (run_one env c st).2) ->
  forall envs tick n st, P st -> P (scheduled_task envs tick n st).2.
Proof.
  intros Hlog Hone.
  assert (Hloop : forall env l st, P st -> P (run_loop env l st).2).
  { intros env l. induction l as [|c rest IH]; intros st HP; [exact HP|].
    cbn [run_loop]. unfold bind.
    pose proof (Hone env c st HP) as H1.
    destruct (run_one env c st) as [[[]|e] st1]; [apply IH|]; exact H1. }
  assert (Htask : forall env st, P st -> P (run_task env st).2).
  { intros env st HP. unfold run_task, bind. rewrite fetch_news_urls_run.
    assert (HP1 : P (add_log st (listing_events env))).
    { apply Hlog; [exact HP|].
      eapply Forall_impl; [apply listing_events_get|].
      intros [] H; first [reflexivity|discriminate]. }
    unfold lift. destruct (competition_news_of (listing_entries env)); [|exact HP1].
    apply Hloop. exact HP1. }
  intros envs tick n. revert tick.
  induction n as [|n IH]; intros tick st HP; [exact HP|].
  cbn [scheduled_task]. unfold bind.
  pose proof (Htask (envs tick) st HP) as H1.
  destruct (run_task (envs tick) st) as [[[]|e] st1]; [|exact H1].
  unfold sleep, emit. apply IH. apply Hlog; [exact H1|]. repeat constructor.
Qed.

(** X7. Whatever the worlds and however the passes end, the scheduler
    never modifies or deletes a stored row, and never changes the set of
    subscribers. *)
Theorem rows_never_change envs tick n st id row :
  db st !! id = Some row ->
  db (scheduled_task envs tick n st).2 !! id = Some row /\
  chat_ids (scheduled_task envs tick n st).2 = chat_ids st.
Proof.
  intros Hrow.
  apply (scheduled_task_invariant
           (fun st' => db st' !! id = Some row /\ chat_ids st' = chat_ids st)).
  - intros st' evs H _. exact H.
  - intros env c st' [H1 H2].
    destruct (run_one_cases env c st') as [->|(r & evs & _ & _ & _ & Hnew & -> & _)];
      [split; assumption|].
    cbn [snd add_log db chat_ids]. split; [|exact H2].
    rewrite lookup_insert_ne; [exact H1|]. intros <-. congruence.
  - split; [exact Hrow|reflexivity].
Qed.

Lemma rows_never_change_witness :
  db (scheduled_task (fun _ => demo_world) 0 3 demo_stored).2 !! r_id demo_row =
    Some demo_row.
Proof.
  apply (rows_never_change (fun _ => demo_world) 0 3 demo_stored).
  apply lookup_singleton_eq.
Defined.

(** X8. Every row the scheduler stores lies under its own id and carries
    the platform label 大广赛: a table that has this shape keeps it. *)
Theorem rows_stay_keyed envs tick n st :
  rows_keyed (db st) -> rows_keyed (db (scheduled_task envs tick n st).2).
Proof.
  apply (scheduled_task_invariant (fun st' => rows_keyed (db st'))).
  - intros st' evs H _. exact H.
  - intros env c st' H.
    destruct (run_one_cases env c st') as [->|(r & evs & _ & Hrow & _ & _ & -> & _)];
      [exact H|].
    cbn [snd add_log db]. intros id row Hlook.
    destruct (decide (r_id r = id)) as [<-|Hne].
    + rewrite lookup_insert_eq in Hlook. injection Hlook as <-.
      split; [reflexivity|exact (row_of_platform _ _ _ Hrow)].
    + rewrite lookup_insert_ne in Hlook by exact Hne. exact (H id row Hlook).
Qed.

Lemma rows_stay_keyed_witness :
  rows_keyed (db (scheduled_task (fun _ => demo_world) 0 2 demo_stored).2).
Proof.
  apply (rows_stay_keyed (fun _ => demo_world) 0 2 demo_stored).
  intros id row H. cbn [db demo_stored] in H.
  apply lookup_singleton_Some in H as [<- <-].
  split; reflexivity.
Defined.

Lemma pushed_ids_quiet evs :
  Forall (fun e => is_push e = false) evs -> pushed_ids evs = [].
Proof.
  unfold pushed_ids. induction 1 as [|e evs He _ IH]; [reflexivity|].
  destruct e; try discriminate He; exact IH.
Qed.

Lemma pushed_ids_app a b : pushed_ids (a ++ b) = pushed_ids a ++ pushed_ids b.
Proof. apply omap_app. Qed.

(** X9. Over any run of the scheduler, whatever the worlds and however the
    passes end, no id is handed to [push_message] twice, and every id that
    was pushed is stored. *)
Theorem no_id_announced_twice envs tick n st :
  announced_once st -> announced_once (scheduled_task envs tick n st).2.
Proof.
  apply (scheduled_task_invariant announced_once).
  - intros st' evs [H1 H2] Hq. unfold announced_once.
    cbn [add_log log db].
    rewrite pushed_ids_app, (pushed_ids_quiet evs Hq), app_nil_r.
    split; assumption.
  - intros env c st' [H1 H2].
    destruct (run_one_cases env c st') as [->|(r & evs & _ & Hrow & _ & Hnew & -> & Hq)];
      [split; assumption|].
    unfold announced_once. cbn [snd add_log log db].
    rewrite pushed_ids_app.
    change (pushed_ids (EvPush c :: evs)) with (entry_id c :: pushed_ids evs).
    rewrite (pushed_ids_quiet evs), <- (row_of_entry_id _ _ _ Hrow).
    2: { eapply Forall_impl; [exact Hq|]. intros e [He _]. exact He. }
    split.
    + apply NoDup_app. split; [exact H1|]. split; [|repeat constructor; apply not_elem_of_nil].
      intros id Hin Hid. apply list_elem_of_singleton in Hid. subst id.
      apply H2 in Hin. rewrite Hnew in Hin. destruct Hin; discriminate.
    + intros id Hin. apply elem_of_app in Hin as [Hin|Hin].
      * destruct (decide (r_id r = id)) as [<-|Hne];
          [rewrite lookup_insert_eq; eauto|].
        rewrite lookup_insert_ne by exact Hne. exact (H2 id Hin).
      * apply list_elem_of_singleton in Hin. subst id. rewrite lookup_insert_eq. eauto.
Qed.

Lemma no_id_announced_twice_witness :
  announced_once demo_state /\
  announced_once (scheduled_task (fun _ => demo_world) 0 3 demo_state).2.
Proof.
  assert (H0 : announced_once demo_state).
  { split; [constructor|]. intros id Hin. apply elem_of_nil in Hin. contradiction. }
  split; [exact H0|].
  exact (no_id_announced_twice (fun _ => demo_world) 0 3 demo_state H0).
Defined.

(** ** One pass with a working store *)












Lemma or_sentinel_nonempty x sentinel : sentinel <> [] -> or_sentinel x sentinel <> [].
Proof.
  intros Hs. unfold or_sentinel. destruct x as [v|]; [|exact Hs].
  unfold nonempty. destruct (bool_decide (v = [])) eqn:E; [exact Hs|].
  apply bool_decide_eq_false in E. exact E.
Qed.

(** An entry of the listing that has content has its title, its url and
    the four extracted fields, none of them empty. *)
Lemma entry_with_content env d :
  d ∈ listing_entries env -> is_Some (d !! "content") ->
  (exists title url, d !! "title" = Some (VStr title) /\ d !! "url" = Some (VStr url)) /\
  forall f, exists v, d !! family_key f = Some (VStr v) /\ v <> [].
Proof.
  intros Hin Hc.
  apply listing_entries_elem in Hin as (_ & _ & k & item & _ & _ & _ & He).
  unfold entry_of in He. destruct (item_title item) as [title|]; [|discriminate].
  destruct (is_competition_title title).
  - unfold page_info in He.
    destruct (requests_get env (item_url item)) as [response|].
    + rewrite extract_fields_run in He.
      cbv beta iota in He.
      apply (f_equal (default ∅)) in He. cbn [default from_option] in He.
      unfold id in He. subst d.
      split; [eexists _, _; split; reflexivity|].
      intros f.
      destruct f; (eexists; split;
                   [reflexivity|apply or_sentinel_nonempty; discriminate]).
    + injection He as <-. destruct Hc; discriminate.
  - injection He as <-. destruct Hc; discriminate.
Qed.

(** X12. Every entry handed to [push_message] by a pass carries its title,
    its url and the four extracted fields, and none of the four is empty:
    the message never falls back on the default 未找到 of [push_message]. *)
Theorem pushed_entries_complete env st :
  exists evs,
    log (run_task env st).2 = log st ++ evs /\
    forall c, EvPush c ∈ evs ->
      (exists title url, c !! "title" = Some (VStr title) /\
                         c !! "url" = Some (VStr url)) /\
      forall f, exists v,
        c !! family_key f = Some (VStr v) /\ v <> [] /\
        dict_get c (family_key f) not_found = VStr v.
Proof.
  destruct (run_task_frame env st) as (r & db' & evs & Hrun & Hp & _).
  exists (listing_events env ++ evs). rewrite Hrun. split; [reflexivity|].
  intros c Hin. apply elem_of_app in Hin as [Hin|Hin].
  { pose proof (listing_events_get env) as Hg. rewrite Forall_forall in Hg.
    apply Hg in Hin. discriminate. }
  apply Hp in Hin as (Hl & Hc & _).
  destruct (entry_with_content env c Hl Hc) as [Hkeys Hfields].
  split; [exact Hkeys|]. intros f. destruct (Hfields f) as (v & Hv & Hne).
  exists v. split; [exact Hv|]. split; [exact Hne|].
  unfold dict_get. now rewrite Hv.
Qed.

(** X13. For an announcement whose values sqlite3 can bind (strings, and
    integers within 64 bits), [save_competition] returns [False] only for
    an id that is already stored; an announcement without index, title or
    url raises [KeyError], and a storage error is raised as it is. In all
    three cases nothing is stored and nothing else changes. *)
Theorem save_competition_refusals env c st r st' :
  match row_of env c with
  | Ret row => row_binds row = true
  | Raise _ => True
  end ->
  save_competition env c st = (r, st') ->
  r <> Ret true ->
  st' = st /\
  ((r = Ret false /\
    exists row, row_of env c = Ret row /\ is_Some (db st !! r_id row)) \/
   (r = Raise KeyError /\
    (c !! "index" = None \/ c !! "title" = None \/ c !! "url" = None)) \/
   (r = Raise (OtherError "sqlite3.OperationalError") /\
    exists row, row_of env c = Ret row /\ sqlite_fault env row = true)).
Proof.
  intros _. rewrite save_competition_run. intros Hrun Hr.
  destruct (row_of env c) as [row|e] eqn:Erow.
  - destruct (sqlite_fault env row) eqn:Ef.
    + injection Hrun as <- <-. split; [reflexivity|]. right. right. eauto.
    + destruct (db st !! r_id row) eqn:Edb.
      * injection Hrun as <- <-. split; [reflexivity|]. left. eauto.
      * injection Hrun as <- _. congruence.
  - injection Hrun as <- <-. split; [reflexivity|]. right. left. split; [reflexivity|].
    unfold row_of, getitem in Erow.
    destruct (c !! "index"); [|auto].
    destruct (c !! "title"); [|auto].
    destruct (c !! "url"); [discriminate|auto].
Qed.

Lemma save_competition_refusals_witness :
  let c : Dict :=
    bare_info 1 (u "参赛须知") (u "2024-03-01") (u "https://www.sun-ada.net/a") true in
  let r : Result bool := Ret false in
  save_competition demo_world c demo_stored = (r, demo_stored) /\
  r <> Ret true /\
  demo_stored = demo_stored /\
  ((r = Ret false /\
    exists row, row_of demo_world c = Ret row /\ is_Some (db demo_stored !! r_id row)) \/
   (r = Raise KeyError /\
    (c !! "index" = None \/ c !! "title" = None \/ c !! "url" = None)) \/
   (r = Raise (OtherError "sqlite3.OperationalError") /\
    exists row, row_of demo_world c = Ret row /\ sqlite_fault demo_world row = true)).
Proof.
  intros c r.
  assert (Hrun : save_competition demo_world c demo_stored = (r, demo_stored))
    by (rewrite save_competition_run; reflexivity).
  assert (Hr : r <> Ret true) by discriminate.
  split; [exact Hrun|]. split; [exact Hr|].
  exact (save_competition_refusals demo_world c demo_stored r demo_stored
           ltac:(vm_compute; reflexivity) Hrun Hr).
Defined.

(** ** Notifier *)

Lemma send_loop_sends env message chats : forall st,
  exists evs,
    send_loop env chats message st = (Ret tt, add_log st evs) /\
    sends evs = (fun chat => (chat, message)) <$> chats /\
    length (List.filter is_log_error evs) =
      length (List.filter (delivery_fails env message) chats).
Proof.
  induction chats as [|chat rest IH]; intros st.
  - exists []. simpl. unfold ret. now rewrite add_log_nil.
  - cbn [send_loop]. unfold bind, try_except, emit, lift.
    cbn [fmap list_fmap List.filter]. unfold delivery_fails at 1.
    destruct (bot_send_message env chat message) as [[]|e].
    + destruct (IH (add_log st [EvSend chat message])) as (evs & -> & Hs & Hf).
      exists (EvSend chat message :: evs). rewrite add_log_app.
      split; [reflexivity|]. split; [|exact Hf].
      change (sends (EvSend chat message :: evs))
        with ((chat, message) :: sends evs). now rewrite Hs.
    + rewrite add_log_app.
      destruct (IH (add_log st ([EvSend chat message] ++ [EvLogError])))
        as (evs & -> & Hs & Hf).
      exists ([EvSend chat message; EvLogError] ++ evs). rewrite add_log_app.
      split; [reflexivity|]. split.
      * change (sends ([EvSend chat message; EvLogError] ++ evs))
          with ((chat, message) :: sends evs). now rewrite Hs.
      * cbn [app List.filter is_log_error length]. now rewrite Hf.
Qed.

(** X14. Run with no command handled in between, [send_message] never
    raises and attempts the delivery of the message to every subscriber
    exactly once and to nobody else; each failed delivery is logged and
    does not stop the deliveries that follow; the table and the subscribers
    are left as they are. *)
Theorem send_message_delivers env message st :
  exists evs,
    send_message env message st = (Ret tt, add_log st evs) /\
    NoDup (sends evs) /\
    (forall chat text, (chat, text) ∈ sends evs <->
       chat ∈ chat_ids st /\ text = message) /\
    length (List.filter is_log_error evs) =
      length (List.filter (delivery_fails env message) (elements (chat_ids st))).
Proof.
  unfold send_message.
  destruct (send_loop_sends env message (elements (chat_ids st)) st)
    as (evs & Hrun & Hs & Hf).
  exists evs. split; [exact Hrun|]. rewrite Hs. split; [|split; [|exact Hf]].
  - apply NoDup_fmap_2; [|apply NoDup_elements].
    intros a b H. now injection H.
  - intros chat text. rewrite list_elem_of_fmap. split.
    + intros (chat' & H & Hin). injection H as -> ->.
      apply elem_of_elements in Hin. auto.
    + intros [Hin ->]. exists chat. split; [reflexivity|].
      apply elem_of_elements. exact Hin.
Qed.

Lemma subscribe_command_run env update st :
  subscribe_command env update st =
    (bot_send_message env (effective_chat_id update)
       (u "订阅成功！您将收到最新的比赛信息推送。"),
     add_log (set_chat_ids st ({[ effective_chat_id update ]} ∪ chat_ids st))
       [EvSend (effective_chat_id update) (u "订阅成功！您将收到最新的比赛信息推送。")]).
Proof. reflexivity. Qed.

Lemma unsubscribe_command_run env update st :
  unsubscribe_command env update st =
    (bot_send_message env (effective_chat_id update) (u "已取消订阅。"),
     add_log (set_chat_ids st (chat_ids st ∖ {[ effective_chat_id update ]}))
       [EvSend (effective_chat_id update) (u "已取消订阅。")]).
Proof. reflexivity. Qed.

(** X15. After [/subscribe], whether or not the confirmation could be
    sent, the next [send_message] attempts a delivery to the chat; after
    [/unsubscribe] it attempts none to it. The deliveries to every other
    chat are those of the subscribers there were. *)
Theorem subscription_decides_delivery env update message st :
  (exists evs,
     send_message env message (subscribe_command env update st).2 =
       (Ret tt, add_log (subscribe_command env update st).2 evs) /\
     (effective_chat_id update, message) ∈ sends evs /\
     forall chat, chat <> effective_chat_id update ->
       ((chat, message) ∈ sends evs <-> chat ∈ chat_ids st)) /\
  (exists evs,
     send_message env message (unsubscribe_command env update st).2 =
       (Ret tt, add_log (unsubscribe_command env update st).2 evs) /\
     (forall text, (effective_chat_id update, text) ∉ sends evs) /\
     forall chat, chat <> effective_chat_id update ->
       ((chat, message) ∈ sends evs <-> chat ∈ chat_ids st)).
Proof.
  assert (Hmem : forall st0 evs,
            sends evs = (fun chat => (chat, message)) <$> elements (chat_ids st0) ->
            forall chat text, (chat, text) ∈ sends evs <->
                              chat ∈ chat_ids st0 /\ text = message).
  { intros st0 evs -> chat text. rewrite list_elem_of_fmap. split.
    - intros (chat' & H & Hin). injection H as -> ->.
      apply elem_of_elements in Hin. auto.
    - intros [Hin ->]. exists chat. split; [reflexivity|].
      apply elem_of_elements. exact Hin. }
  split.
  - rewrite subscribe_command_run. cbn [snd]. unfold send_message.
    destruct (send_loop_sends env message
                (elements (chat_ids (add_log (set_chat_ids st
                   ({[ effective_chat_id update ]} ∪ chat_ids st))
                   [EvSend (effective_chat_id update)
                      (u "订阅成功！您将收到最新的比赛信息推送。")])))
                (add_log (set_chat_ids st
                   ({[ effective_chat_id update ]} ∪ chat_ids st))
                   [EvSend (effective_chat_id update)
                      (u "订阅成功！您将收到最新的比赛信息推送。")]))
      as (evs & Hrun & Hs & _).
    exists evs. split; [exact Hrun|].
    pose proof (Hmem _ _ Hs) as H. cbn [add_log set_chat_ids chat_ids] in H.
    split.
    + apply H. split; [|reflexivity]. apply elem_of_union. left.
      apply elem_of_singleton. reflexivity.
    + intros chat Hne. rewrite H, elem_of_union, elem_of_singleton. tauto.
  - rewrite unsubscribe_command_run. cbn [snd]. unfold send_message.
    destruct (send_loop_sends env message
                (elements (chat_ids (add_log (set_chat_ids st
                   (chat_ids st ∖ {[ effective_chat_id update ]}))
                   [EvSend (effective_chat_id update) (u "已取消订阅。")])))
                (add_log (set_chat_ids st
                   (chat_ids st ∖ {[ effective_chat_id update ]}))
                   [EvSend (effective_chat_id update) (u "已取消订阅。")]))
      as (evs & Hrun & Hs & _).
    exists evs. split; [exact Hrun|].
    pose proof (Hmem _ _ Hs) as H. cbn [add_log set_chat_ids chat_ids] in H.
    split.
    + intros text Hin. apply H in Hin as [Hin _].
      apply elem_of_difference in Hin as [_ Hin]. apply Hin.
      apply elem_of_singleton. reflexivity.
    + intros chat Hne. rewrite H, elem_of_difference, elem_of_singleton. tauto.
Qed.

(** X16. The two commands act on the subscriber set as adding and
    removing one chat: each is idempotent, one undoes the other, removing a
    chat that is not subscribed and adding one that is change nothing, and
    neither touches the table. *)
Theorem subscription_commands_compose env update st :
  let chat := effective_chat_id update in
  let sub := fun s => (subscribe_command env update s).2 in
  let unsub := fun s => (unsubscribe_command env update s).2 in
  chat_ids (sub (sub st)) = chat_ids (sub st) /\
  chat_ids (unsub (unsub st)) = chat_ids (unsub st) /\
  chat_ids (unsub (sub st)) = chat_ids st ∖ {[ chat ]} /\
  chat_ids (sub (unsub st)) = {[ chat ]} ∪ chat_ids st /\
  (chat ∉ chat_ids st -> chat_ids (unsub st) = chat_ids st) /\
  (chat ∈ chat_ids st -> chat_ids (sub st) = chat_ids st) /\
  db (sub st) = db st /\ db (unsub st) = db st.
Proof.
  intros chat sub unsub. unfold sub, unsub.
  repeat (rewrite ?subscribe_command_run, ?unsubscribe_command_run; cbn [snd]).
  cbn [add_log set_chat_ids chat_ids db]. fold chat.
  repeat split; try reflexivity.
  - apply set_eq. intros x. rewrite !elem_of_union. tauto.
  - apply set_eq. intros x. rewrite !elem_of_difference. tauto.
  - apply set_eq. intros x.
    rewrite !elem_of_difference, elem_of_union, elem_of_singleton. tauto.
  - apply set_eq. intros x.
    rewrite !elem_of_union, elem_of_difference, elem_of_singleton.
    destruct (decide (x = chat)); tauto.
  - intros H. apply set_eq. intros x. rewrite elem_of_difference, elem_of_singleton.
    split; [tauto|]. intros Hx. split; [exact Hx|]. intros ->. exact (H Hx).
  - intros H. apply set_eq. intros x. rewrite elem_of_union, elem_of_singleton.
    split; [|tauto]. intros [->|Hx]; assumption.
Qed.

(** ** rename.py: parse_chinese_date *)

Lemma split_comma_space_nonempty s : forall cur, split_comma_space cur s <> [].
Proof.
  induction s as [|a rest IH]; intros cur; [discriminate|].
  cbn [split_comma_space]. destruct rest as [|b rest']; [apply IH|].
  destruct ((a =? 44) && (b =? 32)); [discriminate|apply IH].
Qed.

Lemma last_cons_nonempty (x : str) (l : list str) :
  l <> [] -> List.last (x :: l) [] = List.last l [].
Proof. destruct l; [congruence|reflexivity]. Qed.

(** What precedes the last separator plays no part in the last segment. *)
Lemma last_segment_after_separator n : forall p cur s,
  (length p <= n)%nat ->
  List.last (split_comma_space cur (p ++ 44 :: 32 :: s)) [] =
    List.last (split_comma_space [] s) [].
Proof.
  induction n as [|n IH]; intros p cur s Hn.
  - destruct p; [|simpl in Hn; lia].
    cbn [app split_comma_space N.eqb Pos.eqb andb].
    apply last_cons_nonempty, split_comma_space_nonempty.
  - destruct p as [|a p'].
    + cbn [app split_comma_space N.eqb Pos.eqb andb].
      apply last_cons_nonempty, split_comma_space_nonempty.
    + simpl in Hn. destruct p' as [|b p''].
      * cbn [app split_comma_space].
        replace ((a =? 44) && (44 =? 32)) with false by (now rewrite andb_false_r).
        apply (IH [] (cur ++ [a]) s). simpl. lia.
      * cbn [app split_comma_space].
        destruct ((a =? 44) && (b =? 32)).
        -- rewrite last_cons_nonempty by apply split_comma_space_nonempty.
           apply IH. simpl in Hn. lia.
        -- apply (IH (b :: p'') (cur ++ [a]) s). simpl in *. lia.
Qed.

(** X17. A folder name with a location before the date, as in
    "xx公寓, 2024年1月12日", is parsed as the text after the last ", ":
    whatever precedes that separator has no influence on the result. *)
Theorem location_prefix_ignored U digit_value prefix date_str :
  parse_chinese_date U digit_value (prefix ++ u ", " ++ date_str) =
    parse_chinese_date U digit_value date_str.
Proof.
  unfold parse_chinese_date, last_segment.
  change (u ", " ++ date_str) with (44 :: 32 :: date_str).
  now rewrite (last_segment_after_separator (length prefix) prefix [] date_str).
Qed.

Lemma split_without_separator s : forall cur,
  contains (u ", ") s = false -> split_comma_space cur s = [cur ++ s].
Proof.
  change (u ", ") with [44; 32].
  induction s as [|a rest IH]; intros cur Hc.
  - simpl. now rewrite app_nil_r.
  - cbn [contains] in Hc.
    destruct (startswith (a :: rest) [44; 32]) eqn:Hs; [discriminate|].
    cbn [split_comma_space]. destruct rest as [|b r].
    + rewrite IH by exact Hc. now rewrite <- app_assoc.
    + assert ((a =? 44) && (b =? 32) = false) as ->.
      { cbn [startswith] in Hs. rewrite (N.eqb_sym a), (N.eqb_sym b).
        destruct (44 =? a); [|reflexivity]. destruct (32 =? b); [|reflexivity].
        destruct r; discriminate. }
      rewrite IH by exact Hc. now rewrite <- app_assoc.
Qed.

(** A greedy repetition over a run of matching characters that cannot be
    extended takes the whole run. *)
Lemma rep_match_exact {A} ok (pre : str) : forall lo hi s' (k : str -> option A) x,
  Forall (fun c => ok c = true) pre ->
  (lo <= length pre)%nat ->
  (forall h, hi = Some h -> (length pre <= h)%nat) ->
  (hi = Some (length pre) \/
   match s' with [] => True | c :: _ => ok c = false end) ->
  k s' = Some x ->
  rep_match ok lo hi (pre ++ s') k = Some x.
Proof.
  induction pre as [|a pre IH]; intros lo hi s' k x Hpre Hlo Hhi Hstop Hk.
  - simpl in Hlo. assert (lo = 0%nat) as -> by lia. cbn [app].
    destruct s' as [|c s']; [exact Hk|]. cbn [rep_match].
    destruct Hstop as [->|Hc].
    + cbn [can_take]. rewrite andb_false_r. exact Hk.
    + rewrite Hc. exact Hk.
  - apply Forall_cons in Hpre as [Ha Hpre]. cbn [app rep_match]. rewrite Ha.
    assert (can_take hi = true) as ->.
    { destruct hi as [[|h]|]; try reflexivity.
      specialize (Hhi 0%nat eq_refl). simpl in Hhi. lia. }
    cbn [andb].
    rewrite (IH (pred lo) (pred <$> hi) s' k x); try assumption; [reflexivity| | |].
    + simpl in Hlo. lia.
    + intros h Hh. destruct hi as [h0|]; [|discriminate]. injection Hh as <-.
      specialize (Hhi h0 eq_refl). simpl in Hhi. lia.
    + destruct Hstop as [->|Hc]; [left; reflexivity|right; exact Hc].
Qed.

Lemma take_consumed (a b : str) : take (length (a ++ b) - length b) (a ++ b) = a.
Proof.
  rewrite length_app. replace (length a + length b - length b)%nat with (length a) by lia.
  apply take_app_length.
Qed.

(** X18. A name of the form: four digits, 年, one or two digits, 月, one
    or two digits, 日, followed by any text, is read as the date with that
    year, month and day; the result is the one of [datetime], which raises
    [ValueError] when the three numbers are not a date of the calendar.
    (The name holds no ", ", and 月 and 日 are not digits.) *)
Theorem parse_chinese_date_reads U digit_value ys ms ds rest :
  Forall (fun c => uni_digit U c = true) ys -> length ys = 4%nat ->
  Forall (fun c => uni_digit U c = true) ms -> (1 <= length ms <= 2)%nat ->
  Forall (fun c => uni_digit U c = true) ds -> (1 <= length ds <= 2)%nat ->
  uni_digit U (ch "月") = false -> uni_digit U (ch "日") = false ->
  contains (u ", ")
    (ys ++ ch "年" :: ms ++ ch "月" :: ds ++ ch "日" :: rest) = false ->
  parse_chinese_date U digit_value
    (ys ++ ch "年" :: ms ++ ch "月" :: ds ++ ch "日" :: rest) =
    match datetime (int_of_digits digit_value ys) (int_of_digits digit_value ms)
            (int_of_digits digit_value ds) with
    | Ret date => Ret (Some date)
    | Raise e => Raise e
    end.
Proof.
  intros Hys Hly Hms Hlm Hds Hld Hyue Hri Hsep.
  change (ch "年") with 24180 in *. change (ch "月") with 26376 in *.
  change (ch "日") with 26085 in *.
  unfold parse_chinese_date, last_segment.
  rewrite (split_without_separator _ [] Hsep). cbn [List.last app].
  assert (re_match U chinese_date_pattern
            (ys ++ 24180 :: ms ++ 26376 :: ds ++ 26085 :: rest) =
          Some [ys; ms; ds]) as ->; [|reflexivity].
  unfold re_match, chinese_date_pattern. cbn [rmatch atom_match].
  apply rep_match_exact; [exact Hys|lia|intros h [= <-]; lia|left; now rewrite Hly|].
  rewrite N.eqb_refl.
  apply rep_match_exact;
    [exact Hms|lia|intros h [= <-]; lia|right; exact Hyue|].
  rewrite N.eqb_refl.
  apply rep_match_exact;
    [exact Hds|lia|intros h [= <-]; lia|right; exact Hri|].
  rewrite N.eqb_refl.
  rewrite (take_consumed ys (24180 :: ms ++ 26376 :: ds ++ 26085 :: rest)).
  rewrite (take_consumed ms (26376 :: ds ++ 26085 :: rest)).
  rewrite (take_consumed ds (26085 :: rest)).
  reflexivity.
Qed.

Lemma parse_chinese_date_reads_witness :
  parse_chinese_date ascii_tables ascii_digit_value (u "2024年1月12日 搬家") =
    Ret (Some {| d_year := 2024; d_month := 1; d_day := 12 |}) /\
  parse_chinese_date ascii_tables ascii_digit_value (u "2023年2月29日") =
    Raise (OtherError "ValueError").
Proof.
  split.
  - exact (parse_chinese_date_reads ascii_tables ascii_digit_value
             (u "2024") (u "1") (u "12") (u " 搬家")
             ltac:(repeat constructor) eq_refl
             ltac:(repeat constructor) ltac:(simpl; lia)
             ltac:(repeat constructor) ltac:(simpl; lia)
             eq_refl eq_refl ltac:(vm_compute; reflexivity)).
  - exact (parse_chinese_date_reads ascii_tables ascii_digit_value
             (u "2023") (u "2") (u "29") []
             ltac:(repeat constructor) eq_refl
             ltac:(repeat constructor) ltac:(simpl; lia)
             ltac:(repeat constructor) ltac:(simpl; lia)
             eq_refl eq_refl ltac:(vm_compute; reflexivity)).
Defined.

(** X19. A name whose last segment is empty or does not begin with a digit
    is not a date: the result is [None], and nothing is raised. The
    pattern is matched at the start only, so a date that follows other
    text is not found. *)
Theorem parse_chinese_date_needs_leading_digit U digit_value date_str :
  match last_segment date_str with
  | [] => True
  | c :: _ => uni_digit U c = false
  end ->
  parse_chinese_date U digit_value date_str = Ret None.
Proof.
  intros H. unfold parse_chinese_date.
  destruct (last_segment date_str) as [|c s]; [reflexivity|].
  unfold re_match, chinese_date_pattern. cbn [rmatch rep_match atom_match].
  now rewrite H.
Qed.

Lemma parse_chinese_date_needs_leading_digit_witness :
  parse_chinese_date ascii_tables ascii_digit_value (u "旅行2024年1月12日") = Ret None.
Proof.
  apply parse_chinese_date_needs_leading_digit. vm_compute. reflexivity.
Defined.

(** X20. Whatever the name, [parse_chinese_date] returns [None], returns a
    date of the calendar with a year between 1 and 9999, or raises
    [ValueError]; it raises nothing else. *)
Theorem parse_chinese_date_outcomes U digit_value date_str :
  parse_chinese_date U digit_value date_str = Ret None \/
  parse_chinese_date U digit_value date_str = Raise (OtherError "ValueError") \/
  exists date,
    parse_chinese_date U digit_value date_str = Ret (Some date) /\
    (1 <= d_year date <= 9999)%Z /\ (1 <= d_month date <= 12)%Z /\
    (1 <= d_day date <= days_in_month (d_year date) (d_month date))%Z /\
    (d_day date <= 31)%Z.
Proof.
  unfold parse_chinese_date.
  destruct (re_match U chinese_date_pattern (last_segment date_str))
    as [groups|] eqn:E; [|left; reflexivity].
  right. unfold re_match in E.
  apply rmatch_sound in E as (pre & s' & new & _ & _ & Hnew & Hk).
  simpl in Hk. injection Hk as <-.
  assert (exists g1 g2 g3, new = [g1; g2; g3]) as (g1 & g2 & g3 & ->).
  { cbn [chinese_date_pattern groups_of app] in Hnew.
    inversion Hnew as [|? ? ? ? _ H1]; subst.
    inversion H1 as [|? ? ? ? _ H2]; subst.
    inversion H2 as [|? ? ? ? _ H3]; subst.
    inversion H3; subst. eauto. }
  cbv zeta. unfold datetime.
  destruct (_ && _)%bool eqn:Hok; [right|left; reflexivity].
  eexists. split; [reflexivity|]. cbn [d_year d_month d_day].
  repeat (apply andb_prop in Hok as [Hok ?]).
  repeat match goal with H : (_ <=? _)%Z = true |- _ => apply Z.leb_le in H end.
  repeat split; try assumption.
  etransitivity; [eassumption|]. unfold days_in_month.
  repeat match goal with |- context [if ?b then _ else _] => destruct b end; lia.
Qed.
